(** * AI News Summarizer: the fetch / summarize / trim pipeline of [main.py]

    A shallow embedding of the text-processing core of [main.py]
    ([is_relevant], [get_news], [summarize_article_tool], [summarize_node],
    [format_date], [combine_and_trim_description]) together with the parts
    of Python's [str] and [re] that these functions call.

    Modelling choices:
    - Python strings are sequences of Unicode code points: a character is a
      number [N], a string a list of them.
    - A dict with string keys is a [gmap string pyval]; the values of an
      article's entries are strings or [None], as in the news backend's
      JSON.
    - The two network calls are inputs: [get_news] takes the backend's
      answer, and the language model is a [backend] whose calls thread the
      state of the outside world.
    - [f.invoke(args)] of a [@tool] function first checks the arguments
      against the annotations of [f]: a [str] parameter given [None] raises
      a validation error before [f] runs.
    - A raised exception is [None] in the option monad: inside a [try],
      where the code catches it, and in the summarize stage and the report,
      where it ends the run.  The functions modelled here are otherwise
      total. *)

From stdpp Require Import gmap strings list.
From Stdlib Require Import NArith Lia ZifyBool ZifyN.
From Stdlib Require Ascii String.

Local Open Scope N_scope.

Abbreviation char := N (only parsing).
Abbreviation str := (list N) (only parsing).

(** A string literal of the source, as code points (ASCII literals only). *)
Definition lit (s : string) : str :=
  Ascii.N_of_ascii <$> String.list_ascii_of_string s.

(** ** Character classes *)

(** [str.isspace] on one character, which is also [\s] of [re] on [str]
    patterns and the set [str.strip] and [str.split] remove: the code
    points CPython's [_PyUnicode_IsWhitespace] accepts. *)
Definition isspace (c : char) : bool :=
  ((9 <=? c) && (c <=? 13)) || ((28 <=? c) && (c <=? 32))
  || (c =? 133) || (c =? 160) || (c =? 5760)
  || ((8192 <=? c) && (c <=? 8202))
  || (c =? 8232) || (c =? 8233) || (c =? 8239) || (c =? 8287) || (c =? 12288).

Definition is_ascii_upper (c : char) : bool := (65 <=? c) && (c <=? 90).
Definition is_ascii_lower (c : char) : bool := (97 <=? c) && (c <=? 122).
Definition is_ascii_digit (c : char) : bool := (48 <=? c) && (c <=? 57).

(** The class [[a-zA-Z0-9]]. *)
Definition is_ascii_alnum (c : char) : bool :=
  is_ascii_lower c || is_ascii_upper c || is_ascii_digit c.

(** The punctuation both cleaning passes keep: [. , ! ?]. *)
Definition kept_punct (c : char) : bool :=
  (c =? 46) || (c =? 44) || (c =? 33) || (c =? 63).

(** The Unicode tables of the interpreter that the program consults beyond
    the ASCII range, and [str.lower].  They are data of CPython, not of
    this repository, so every definition below takes them as a parameter.
    [lower_blank]: lower-casing leaves a string of white space alone (white
    space is uncased). *)
Record unicode := {
  alnum_hi : char -> bool;      (* str.isalnum, for code points >= 128 *)
  decimal_hi : char -> bool;    (* Unicode decimal digits >= 128 *)
  lower : str -> str;           (* str.lower *)
  lower_blank : forall s, forallb isspace s = true -> lower s = s
}.

(** [\w] of [re] on a [str] pattern: alphanumeric or underscore. *)
Definition isword (U : unicode) (c : char) : bool :=
  if c <? 128 then is_ascii_alnum c || (c =? 95) else alnum_hi U c.

(** [\d] of [re] on a [str] pattern. *)
Definition isdigit (U : unicode) (c : char) : bool :=
  if c <? 128 then is_ascii_digit c else decimal_hi U c.

(** ** The methods of [str] the program uses *)

Fixpoint lstrip (s : str) : str :=
  match s with
  | c :: s' => if isspace c then lstrip s' else s
  | [] => []
  end.

Definition rstrip (s : str) : str := rev (lstrip (rev s)).

(** [s.strip()] *)
Definition strip (s : str) : str := lstrip (rstrip s).

Fixpoint lstrip_chr (x : char) (s : str) : str :=
  match s with
  | c :: s' => if c =? x then lstrip_chr x s' else s
  | [] => []
  end.

(** [s.rstrip(x)] for a one-character argument. *)
Definition rstrip_chr (x : char) (s : str) : str := rev (lstrip_chr x (rev s)).

(** [s.split()]: the maximal runs of non-blank characters, in order.
    [cur] is the run being read, reversed. *)
Fixpoint split_ws (cur : str) (s : str) : list str :=
  match s with
  | [] => match cur with [] => [] | _ => [rev cur] end
  | c :: s' =>
      if isspace c
      then match cur with [] => split_ws [] s' | _ => rev cur :: split_ws [] s' end
      else split_ws (c :: cur) s'
  end.

Definition split (s : str) : list str := split_ws [] s.

Fixpoint startswith (p s : str) : bool :=
  match p, s with
  | [], _ => true
  | a :: p', b :: s' => (a =? b) && startswith p' s'
  | _ :: _, [] => false
  end.

(** [sub in s] *)
Fixpoint contains (sub s : str) : bool :=
  startswith sub s ||
  match s with
  | [] => false
  | _ :: s' => contains sub s'
  end.

(** [s.partition(sep)]: the text before and after the first occurrence of
    [sep], if there is one. *)
Fixpoint partition (sep s : str) : option (str * str) :=
  if startswith sep s then Some ([], drop (length sep) s)
  else match s with
       | [] => None
       | c :: s' =>
           match partition sep s' with
           | Some (a, b) => Some (c :: a, b)
           | None => None
           end
       end.

(** [s.split(sep)] for a non-empty [sep]; at most [length s] cuts. *)
Fixpoint split_on_fuel (n : nat) (sep s : str) : list str :=
  match n with
  | O => [s]
  | S n' =>
      match partition sep s with
      | Some (a, b) => a :: split_on_fuel n' sep b
      | None => [s]
      end
  end.

Definition split_on (sep s : str) : list str := split_on_fuel (length s) sep s.

(** [s.rfind(x)] for a one-character [x]: the last index holding [x]. *)
Fixpoint rfind (x : char) (s : str) : option nat :=
  match s with
  | [] => None
  | c :: s' =>
      match rfind x s' with
      | Some i => Some (S i)
      | None => if c =? x then Some O else None
      end
  end.

(** [s.replace(old, new)] for a one-character [old]. *)
Definition replace_chr (old : char) (new : str) (s : str) : str :=
  flat_map (fun c => if c =? old then new else [c]) s.

(** ** The fragment of [re] the program uses

    The five patterns of [main.py] are built from single-character classes
    (a literal is a one-element class), the assertions [\b] and [$], greedy
    repetition of a class ([\s*], [.*], [\d+]), a greedy optional item and
    concatenation.  Matching is by backtracking, as in [sre]: [rmatch r prev
    s k] matches [r] at the front of [s], where [prev] is the character just
    before [s] in the subject, and hands the rest to the continuation [k];
    alternatives are tried in the order [sre] tries them. *)
Inductive regex :=
  | Eps
  | Chr (p : char -> bool)
  | Bound
  | Eol
  | Cat (r1 r2 : regex)
  | Star (p : char -> bool)
  | Opt (r : regex).

Definition is_chr (x : char) : char -> bool := fun c => c =? x.

(** The pattern [re.escape(w)] compiles to: the characters of [w], each
    matched literally. *)
Fixpoint lits (w : str) : regex :=
  match w with
  | [] => Eps
  | c :: w' => Cat (Chr (is_chr c)) (lits w')
  end.

(** [p+] *)
Definition Plus (p : char -> bool) : regex := Cat (Chr p) (Star p).

Section Matcher.
Context (U : unicode).

Definition wordp (o : option char) : bool :=
  match o with
  | Some c => isword U c
  | None => false
  end.

(** [\b]: exactly one of the two neighbours is a word character; the ends
    of the subject count as non-word. *)
Definition at_boundary (prev : option char) (s : str) : bool :=
  xorb (wordp prev) (wordp (head s)).

(** [$] without [re.MULTILINE]: the end of the subject, or just before a
    newline that ends it. *)
Definition at_eol (s : str) : bool :=
  match s with
  | [] => true
  | [c] => c =? 10
  | _ => false
  end.

Fixpoint star (p : char -> bool) (k : option char -> str -> option str)
    (prev : option char) (s : str) : option str :=
  match s with
  | c :: s' =>
      if p c
      then match star p k (Some c) s' with
           | Some r => Some r
           | None => k prev s
           end
      else k prev s
  | [] => k prev s
  end.

Fixpoint rmatch (r : regex) (prev : option char) (s : str)
    (k : option char -> str -> option str) : option str :=
  match r with
  | Eps => k prev s
  | Chr p =>
      match s with
      | c :: s' => if p c then k (Some c) s' else None
      | [] => None
      end
  | Bound => if at_boundary prev s then k prev s else None
  | Eol => if at_eol s then k prev s else None
  | Cat r1 r2 => rmatch r1 prev s (fun prev' s' => rmatch r2 prev' s' k)
  | Star p => star p k prev s
  | Opt r1 =>
      match rmatch r1 prev s k with
      | Some x => Some x
      | None => k prev s
      end
  end.

(** One match attempt at the current position: what follows the match. *)
Definition match_here (r : regex) (prev : option char) (s : str) : option str :=
  rmatch r prev s (fun _ s' => Some s').

Fixpoint search_from (r : regex) (prev : option char) (s : str) : bool :=
  match match_here r prev s with
  | Some _ => true
  | None =>
      match s with
      | [] => false
      | c :: s' => search_from r (Some c) s'
      end
  end.

(** [re.search(r, s)], as a truth value. *)
Definition re_search (r : regex) (s : str) : bool := search_from r None s.

(** [re.sub(r, '', s)]: the leftmost match is deleted, the scan resumes
    after it.  [skip] counts the characters of the current match still to
    be dropped.  A match of length 0 deletes nothing. *)
Fixpoint sub_from (r : regex) (skip : nat) (prev : option char) (s : str) : str :=
  match s with
  | [] => []
  | c :: s' =>
      match skip with
      | S n => sub_from r n (Some c) s'
      | O =>
          match match_here r prev s with
          | Some rest =>
              match (length s - length rest)%nat with
              | S n => sub_from r n (Some c) s'
              | O => c :: sub_from r O (Some c) s'
              end
          | None => c :: sub_from r O (Some c) s'
          end
      end
  end.

Definition re_sub (r : regex) (s : str) : str := sub_from r O None s.
End Matcher.

(** ** Data model *)

(** The values the news backend puts in an article's text fields: a JSON
    string or [null]. *)
Inductive pyval :=
  | PNone
  | PStr (s : str).

(** [d.get(k, dflt)] *)
Definition get (d : gmap string pyval) (k : string) (dflt : pyval) : pyval :=
  default dflt (d !! k).

(** What an f-string writes for a value: [None] prints as the word. *)
Definition py_format (v : pyval) : str :=
  match v with
  | PNone => lit "None"
  | PStr s => s
  end.

(** [x or ''], the empty string for [None] *)
Definition or_empty (v : pyval) : str :=
  match v with
  | PNone => []
  | PStr s => s
  end.

(** An article as the backend sends it: its string-or-null entries, and the
    nested ["source"] object when that key is present. *)
Record raw_article := {
  fields : gmap string pyval;
  source : option (gmap string pyval)
}.

(** The backend's answer to [get_everything]. *)
Record response := {
  status : option pyval;
  articles : option (list raw_article)
}.

(** The dict [summarize_article_tool] returns. *)
Record tool_result := {
  headline : str;
  summary : str;
  tags : list str
}.

(** One entry of [state["summaries"]]: the tool's result extended with the
    keys ["source"] and ["date"]. *)
Record summary_entry := {
  s_result : tool_result;
  s_source : pyval;
  s_date : pyval
}.

(** What [chain.run] does: it returns text or raises. *)
Inductive outcome :=
  | Returned (result : str)
  | Raised.

(** The language-model backend: a call reads and changes the state of the
    world outside the program. *)
Record backend := {
  world : Type;
  chain_run : str -> world -> outcome * world
}.

(** [datetime.fromisoformat] and [strftime("%B %d, %Y at %I:%M %p")] of the
    standard library. *)
Record datelib := {
  datetime : Type;
  fromisoformat : str -> option datetime;
  strftime : datetime -> str
}.

(** ** Relevance filtering and fetching *)

(** The pattern [rf"\b{re.escape(word)}\b"]. *)
Definition word_pattern (word : str) : regex :=
  Cat Bound (Cat (lits word) Bound).

Definition combined_text (U : unicode) (article : gmap string pyval) : str :=
  lower U (py_format (get article "title" (PStr [])) ++ [32]
           ++ py_format (get article "description" (PStr [])) ++ [32]
           ++ py_format (get article "content" (PStr []))).

Definition is_relevant (U : unicode) (article : gmap string pyval) (topic : str) : bool :=
  let topic_keywords := split (lower U topic) in
  forallb (fun word => re_search U (word_pattern word) (combined_text U article))
          topic_keywords.

(** The dict [get_news] appends for a relevant article. *)
Definition fetched (article : raw_article) : gmap string pyval :=
  <[ "title" := get (fields article) "title" (PStr []) ]>
  (<[ "description" := get (fields article) "description" (PStr []) ]>
  (<[ "content" := get (fields article) "content" (PStr []) ]>
  (<[ "source" := get (default ∅ (source article)) "name" (PStr []) ]>
  (<[ "publishedAt" := get (fields article) "publishedAt" (PStr []) ]>
  (<[ "url" := get (fields article) "url" (PStr []) ]> ∅))))).

Definition status_ok (r : response) : bool :=
  match status r with
  | Some (PStr s) => bool_decide (s = lit "ok")
  | _ => false
  end.

(** [get_news(topic)], given the backend's answer to the query. *)
Definition get_news (U : unicode) (r : response) (topic : str) : list (gmap string pyval) :=
  let found :=
    if status_ok r
    then fetched <$> List.filter (fun article => is_relevant U (fields article) topic)
                                 (default [] (articles r))
    else [] in
  take 5 found.

(** ** Summarising *)

Definition HEADLINE : str := Eval cbv in lit "Headline:".
Definition SUMMARY : str := Eval cbv in lit "Summary:".
Definition TAG : str := Eval cbv in lit "Tag:".
Definition TAGS : str := Eval cbv in lit "Tags:".
Definition headline_unavailable : str := Eval cbv in lit "Headline unavailable".
Definition summary_unavailable : str := Eval cbv in lit "Summary unavailable".
Definition summary_filtered : str :=
  Eval cbv in lit "Summary unavailable due to content filter or formatting issue.".
Definition general : str := Eval cbv in lit "General".

(** The letters of [Tags] under [re.IGNORECASE]: a character matches when
    its lower case is the letter; [s] also matches U+017F. *)
Definition ci_t (c : char) : bool := (c =? 116) || (c =? 84).
Definition ci_a (c : char) : bool := (c =? 97) || (c =? 65).
Definition ci_g (c : char) : bool := (c =? 103) || (c =? 71).
Definition ci_s (c : char) : bool := (c =? 115) || (c =? 83) || (c =? 383).

(** [.] without [re.DOTALL] *)
Definition not_newline (c : char) : bool := negb (c =? 10).

(** [r'\s*Tags?:\s*.*$'] with [re.IGNORECASE] *)
Definition tags_colon_re : regex :=
  Cat (Star isspace) (Cat (Chr ci_t) (Cat (Chr ci_a) (Cat (Chr ci_g)
  (Cat (Opt (Chr ci_s)) (Cat (Chr (is_chr 58))
  (Cat (Star isspace) (Cat (Star not_newline) Eol))))))).

(** [r'\s*\bTags?\b.*$'] with [re.IGNORECASE] *)
Definition tags_word_re : regex :=
  Cat (Star isspace) (Cat Bound (Cat (Chr ci_t) (Cat (Chr ci_a) (Cat (Chr ci_g)
  (Cat (Opt (Chr ci_s)) (Cat Bound (Cat (Star not_newline) Eol))))))).

(** The triple of the [except] branch. *)
Definition fallback : tool_result :=
  {| headline := headline_unavailable;
     summary := summary_filtered;
     tags := [general] |}.

Definition nonempty (s : str) : bool :=
  match s with
  | [] => false
  | _ => true
  end.

(** The body of the [try] after [chain.run] has returned [result], in its
    three steps.  An index out of range raises; [None] stands for a raised
    exception. *)
Definition extract_headline (result : str) : option str :=
  if contains HEADLINE result && contains SUMMARY result
  then a ← split_on HEADLINE result !! 1%nat;
       b ← split_on SUMMARY a !! 0%nat;
       Some (strip b)
  else Some headline_unavailable.

Definition extract_summary (U : unicode) (result : str) : option str :=
  summary ←
    (if contains SUMMARY result
     then if contains TAG result
          then a ← split_on SUMMARY result !! 1%nat;
               b ← split_on TAG a !! 0%nat;
               Some (strip b)
          else a ← split_on SUMMARY result !! 1%nat;
               Some (strip a)
     else Some summary_unavailable);
  summary ←
    (if contains TAGS summary
     then b ← split_on TAGS summary !! 0%nat; Some (strip b)
     else Some summary);
  let summary := re_sub U tags_colon_re summary in
  let summary := re_sub U tags_word_re summary in
  Some summary.

Definition extract_tags (result : str) : option (list str) :=
  if contains TAGS result
  then tags_text ← strip <$> (split_on TAGS result !! 1%nat);
       let tags := List.filter nonempty (strip <$> split_on [44] tags_text) in
       Some (take 3 tags)
  else Some [general].

Definition parse_response (U : unicode) (result : str) : option tool_result :=
  headline ← extract_headline result;
  summary ← extract_summary U result;
  tags ← extract_tags result;
  Some {| headline := headline; summary := summary; tags := tags |}.

(** [clean = lambda x: re.sub(r'[^\w\s.,!?]', '', x or '')]: deleting every
    match of a one-character class keeps the characters outside it. *)
Definition clean (U : unicode) (x : pyval) : str :=
  List.filter (fun c => isword U c || isspace c || kept_punct c) (or_empty x).

Definition truncated_text (U : unicode) (title description content : pyval) : str :=
  let full_text :=
    strip (clean U title ++ [46; 32] ++ clean U description ++ [46; 32]
           ++ clean U content) in
  take 1500 full_text.

Definition summarize_article_tool (U : unicode) (L : backend)
    (title description content : pyval) (w : world L) : tool_result * world L :=
  let (o, w') := chain_run L (truncated_text U title description content) w in
  (match o with
   | Returned result => default fallback (parse_response U result)
   | Raised => fallback
   end, w').

(** ** Dates *)

Definition format_date (D : datelib) (iso_date : pyval) : pyval :=
  match iso_date with
  | PNone => PNone   (* [None.replace] raises inside the [try] *)
  | PStr s =>
      match fromisoformat D (replace_chr 90 (lit "+00:00") s) with
      | Some dt => PStr (strftime D dt)
      | None => PStr s
      end
  end.

(** ** The summarize node *)

(** An argument that a [str] parameter accepts. *)
Definition is_str (v : pyval) : bool :=
  match v with
  | PStr _ => true
  | PNone => false
  end.

(** [summarize_article_tool.invoke({...})]: the wrapper that [@tool] builds
    validates the three [str] arguments and raises on [None], before the
    function and outside its [try]; the model is then not called.  [None]
    stands for the raised exception. *)
Definition summarize_article_tool_invoke (U : unicode) (L : backend)
    (title description content : pyval) (w : world L)
    : option tool_result * world L :=
  if is_str title && is_str description && is_str content
  then let (r, w') := summarize_article_tool U L title description content w in
       (Some r, w')
  else (None, w).

(** One element of the list comprehension of [summarize_node]: the tool's
    dict first, then the keys ["source"] and ["date"]. *)
Definition summarize_one (U : unicode) (D : datelib) (L : backend)
    (article : gmap string pyval) (w : world L) : option summary_entry * world L :=
  let (o, w') :=
    summarize_article_tool_invoke U L
      (get article "title" (PStr []))
      (get article "description" (PStr []))
      (get article "content" (PStr [])) w in
  (r ← o;
   Some {| s_result := r;
           s_source := get article "source" (PStr []);
           s_date := format_date D (get article "publishedAt" (PStr [])) |}, w').

(** [summarize_node] on [state["articles"]]: the articles are summarised one
    after the other, in order; an exception ends the comprehension. *)
Fixpoint summarize_node (U : unicode) (D : datelib) (L : backend)
    (arts : list (gmap string pyval)) (w : world L)
    : option (list summary_entry) * world L :=
  match arts with
  | [] => (Some [], w)
  | article :: rest =>
      match summarize_one U D L article w with
      | (Some e, w1) =>
          let (o, w2) := summarize_node U D L rest w1 in
          (es ← o; Some (e :: es), w2)
      | (None, w1) => (None, w1)
      end
  end.

(** ** Trimming the description *)

(** [r'‚Ä¶ \[\+\d+ chars\]'] as the source file spells it: the three code
    points U+201A, U+00C4, U+00B6, then [ [+], digits and [ chars]]. *)
Definition marker_re (U : unicode) : regex :=
  Cat (lits [8218; 196; 182; 32; 91; 43])
      (Cat (Plus (isdigit U)) (lits (lit " chars]"))).

(** The value of [combined] after line 266: marker removed, pieces joined,
    characters filtered, cut at 700. *)
Definition truncated_window (U : unicode) (description content : pyval) : str :=
  let content := re_sub U (marker_re U) (or_empty content) in
  let description := or_empty description in
  let combined := strip (strip description ++ [32] ++ strip content) in
  let combined :=
    List.filter (fun c => is_ascii_alnum c || isspace c || kept_punct c) combined in
  take 700 combined.

Definition combine_and_trim_description (U : unicode) (description content : pyval) : str :=
  let combined := truncated_window U description content in
  let combined :=
    match rfind 46 combined with
    | Some last_sentence_end => take (last_sentence_end + 1) combined
    | None => rstrip_chr 46 combined ++ [46]
    end in
  strip combined.

(** ** The PDF report *)

(** [clean_text]: [unicodedata.normalize("NFKD", text)], a table of the
    interpreter taken as the parameter [nfkd], then the characters that
    Latin-1 can encode. *)
Definition clean_text (nfkd : str -> str) (text : str) : str :=
  List.filter (fun c => c <? 256) (nfkd text).

(** [clean_text(v)] for a value that may be [None]: [normalize] raises
    [TypeError] on [None]. *)
Definition clean_text_val (nfkd : str -> str) (v : pyval) : option str :=
  match v with
  | PStr s => Some (clean_text nfkd s)
  | PNone => None
  end.

Fixpoint digits_of_uint (u : Decimal.uint) : str :=
  match u with
  | Decimal.Nil => []
  | Decimal.D0 u => 48 :: digits_of_uint u
  | Decimal.D1 u => 49 :: digits_of_uint u
  | Decimal.D2 u => 50 :: digits_of_uint u
  | Decimal.D3 u => 51 :: digits_of_uint u
  | Decimal.D4 u => 52 :: digits_of_uint u
  | Decimal.D5 u => 53 :: digits_of_uint u
  | Decimal.D6 u => 54 :: digits_of_uint u
  | Decimal.D7 u => 55 :: digits_of_uint u
  | Decimal.D8 u => 56 :: digits_of_uint u
  | Decimal.D9 u => 57 :: digits_of_uint u
  end.

(** [str(n)] for a natural number, as an f-string writes it. *)
Definition py_str_nat (n : nat) : str := digits_of_uint (Nat.to_uint n).

(** [sep.join(l)] *)
Fixpoint join (sep : str) (l : list str) : str :=
  match l with
  | [] => []
  | [x] => x
  | x :: rest => x ++ sep ++ join sep rest
  end.

(** The calls the program makes on the FPDF object, with their arguments;
    the document is what the library draws from them.  [HLine x1 x2] is
    [line(x1, get_y(), x2, get_y())]. *)
Inductive pdf_call :=
  | AddPage
  | SetFont (family style : string) (size : nat)
  | SetFillColor (r g b : nat)
  | SetDrawColor (r g b : nat)
  | SetY (below_top : bool) (y : nat)
  | Cell (w h : nat) (txt : str) (ln : nat) (align : string) (fill : bool)
  | MultiCell (w h : nat) (txt : str) (align : string)
  | Ln (h : nat)
  | HLine (x1 x2 : nat).

(** [PDF.header], which the library runs at the top of every page; [now] is
    the formatted [datetime.now()]. *)
Definition header (nfkd : str -> str) (topic now : str) : list pdf_call :=
  [ SetFont "Arial" "B" 16;
    Cell 0 12 (clean_text nfkd (lit "AI News Summarizer Report")) 1 "C" false;
    SetFont "Arial" "" 12;
    Cell 0 8 (clean_text nfkd (lit "Topic: " ++ topic)) 1 "C" false;
    Cell 0 8 (clean_text nfkd (lit "Generated on: " ++ now)) 1 "C" false;
    Ln 10 ].

(** [PDF.footer], run at the bottom of every page; [set_y(-15)] is 15 above
    the bottom. *)
Definition footer (page_no : nat) : list pdf_call :=
  [ SetY false 15;
    SetFont "Arial" "I" 8;
    Cell 0 10 (lit "Page " ++ py_str_nat page_no) 0 "C" false ].

(** [PDF.add_article(article, summary, idx)], where [n_articles] is
    [len(articles)] of the enclosing call.  [article['title']] raises
    [KeyError] on a missing key, [clean_text] raises on [None]. *)
Definition add_article (U : unicode) (nfkd : str -> str) (n_articles : nat)
    (article : gmap string pyval) (s : summary_entry) (idx : nat)
    : option (list pdf_call) :=
  title ← article !! "title" ≫= clean_text_val nfkd;
  let description :=
    combine_and_trim_description U
      (get article "description" (PStr [])) (get article "content" (PStr [])) in
  src ← article !! "source";
  url ← article !! "url" ≫= clean_text_val nfkd;
  Some
    ([ SetFont "Arial" "B" 14;
       SetFillColor 230 243 252;
       Cell 0 10 (clean_text nfkd (lit "Article " ++ py_str_nat idx)) 1 "" true;
       Ln 2;
       SetFont "Arial" "B" 11;
       Cell 0 6 (clean_text nfkd (lit "Title:")) 1 "" false;
       SetFont "Arial" "" 10;
       MultiCell 0 6 title "L";
       Ln 2;
       SetFont "Arial" "B" 11;
       Cell 0 6 (clean_text nfkd (lit "Description:")) 1 "" false;
       SetFont "Arial" "" 10;
       MultiCell 0 6 (clean_text nfkd description) "L";
       Ln 2;
       SetFont "Arial" "B" 11;
       Cell 0 6 (clean_text nfkd (lit "Source & Date:")) 1 "" false;
       SetFont "Arial" "" 10;
       MultiCell 0 6
         (clean_text nfkd (py_format src ++ lit " | " ++ py_format (s_date s))) "L";
       Ln 2;
       SetFont "Arial" "B" 11;
       Cell 0 6 (clean_text nfkd (lit "URL:")) 1 "" false;
       SetFont "Arial" "" 10;
       MultiCell 0 6 url "L";
       Ln 5;
       SetFont "Arial" "B" 14;
       SetFillColor 234 250 241;
       Cell 0 10 (clean_text nfkd (lit "AI Generated Summary " ++ py_str_nat idx))
            1 "" true;
       Ln 2;
       SetFont "Arial" "B" 11;
       Cell 0 6 (clean_text nfkd (lit "Generated Headline:")) 1 "" false;
       SetFont "Arial" "" 10;
       MultiCell 0 6 (clean_text nfkd (headline (s_result s))) "L";
       Ln 2;
       SetFont "Arial" "B" 11;
       Cell 0 6 (clean_text nfkd (lit "Summary:")) 1 "" false;
       SetFont "Arial" "" 10;
       MultiCell 0 6 (clean_text nfkd (summary (s_result s))) "L";
       Ln 2;
       SetFont "Arial" "B" 11;
       Cell 0 6 (clean_text nfkd (lit "Tags:")) 1 "" false;
       SetFont "Arial" "" 10;
       MultiCell 0 6 (clean_text nfkd (join (lit ", ") (tags (s_result s)))) "L";
       Ln 8 ]
     ++ (if (idx <? n_articles)%nat
         then [ SetDrawColor 200 200 200; HLine 10 200; Ln 5 ]
         else [])).


(** The loop [for idx, (article, summary) in enumerate(zip(...), 1)], from
    index [idx] on: an exception in one section ends the whole call. *)
Fixpoint add_articles (U : unicode) (nfkd : str -> str) (n_articles : nat) (idx : nat)
    (pairs : list (gmap string pyval * summary_entry)) : option (list pdf_call) :=
  match pairs with
  | [] => Some []
  | (article, s) :: rest =>
      section ← add_article U nfkd n_articles article s idx;
      more ← add_articles U nfkd n_articles (S idx) rest;
      Some (section ++ more)
  end.

(** [generate_pdf(articles, summaries, topic)]: the calls made on the
    document, in order, up to [pdf.output]; [None] when a section raises.
    The header and the footer are drawn by the library, page by page. *)
Definition generate_pdf (U : unicode) (nfkd : str -> str)
    (arts : list (gmap string pyval)) (sums : list summary_entry) (topic : str)
    : option (list pdf_call) :=
  sections ← add_articles U nfkd (length arts) 1 (zip arts sums);
  Some ([ AddPage;
          SetFont "Arial" "B" 12;
          Cell 0 8 (clean_text nfkd (lit "Total Articles Found: "
                                     ++ py_str_nat (length arts))) 1 "" false;
          Ln 5 ]
        ++ sections).

(** ** The pipeline *)

(** [NewsState]; the document stands for its bytes. *)
Record NewsState := {
  state_topic : str;
  state_articles : list (gmap string pyval);
  state_summaries : list summary_entry;
  state_pdf_path : str;
  state_pdf_bytes : list pdf_call
}.

(** The three nodes, each with its update merged into the state.
    [get_everything] is the news backend, asked for the topic. *)
Definition get_news_node (U : unicode) (get_everything : str -> response)
    (state : NewsState) : NewsState :=
  {| state_topic := state_topic state;
     state_articles :=
       get_news U (get_everything (state_topic state)) (state_topic state);
     state_summaries := state_summaries state;
     state_pdf_path := state_pdf_path state;
     state_pdf_bytes := state_pdf_bytes state |}.

Definition summarize_news (U : unicode) (D : datelib) (L : backend)
    (state : NewsState) (w : world L) : option NewsState * world L :=
  let (o, w') := summarize_node U D L (state_articles state) w in
  (summaries ← o;
   Some {| state_topic := state_topic state;
           state_articles := state_articles state;
           state_summaries := summaries;
           state_pdf_path := state_pdf_path state;
           state_pdf_bytes := state_pdf_bytes state |}, w').

Definition generate_pdf_node (U : unicode) (nfkd : str -> str)
    (state : NewsState) : option NewsState :=
  pdf_bytes ← generate_pdf U nfkd (state_articles state) (state_summaries state)
                           (state_topic state);
  Some {| state_topic := state_topic state;
          state_articles := state_articles state;
          state_summaries := state_summaries state;
          state_pdf_path := state_pdf_path state;
          state_pdf_bytes := pdf_bytes |}.

(** [app.invoke(input_state)] for the graph START, get_news,
    summarize_news, generate_pdf, END: the nodes run in this order, and an
    exception in one ends the run; the state of the model backend is
    returned also when a node raises. *)
Definition invoke (U : unicode) (D : datelib) (L : backend) (nfkd : str -> str)
    (get_everything : str -> response) (input_state : NewsState) (w : world L)
    : option NewsState * world L :=
  let s1 := get_news_node U get_everything input_state in
  let (o2, w') := summarize_news U D L s1 w in
  (s2 ← o2; generate_pdf_node U nfkd s2, w').

(** The input state the page builds for a topic. *)
Definition input_state (topic : str) : NewsState :=
  {| state_topic := topic;
     state_articles := [];
     state_summaries := [];
     state_pdf_path := [];
     state_pdf_bytes := [] |}.

(** What decides whether a section can be drawn: a title and a url that are
    strings, and a source entry. *)
Definition renderable (article : gmap string pyval) : bool :=
  match article !! "title", article !! "source", article !! "url" with
  | Some (PStr _), Some _, Some (PStr _) => true
  | _, _, _ => false
  end.

Definition is_hline (c : pdf_call) : bool :=
  match c with
  | HLine _ _ => true
  | _ => false
  end.

(** The texts a list of calls writes. *)
Definition text_of (c : pdf_call) : option str :=
  match c with
  | Cell _ _ txt _ _ _ => Some txt
  | MultiCell _ _ txt _ => Some txt
  | _ => None
  end.

Definition texts_of (calls : list pdf_call) : list str := omap text_of calls.

(** ** The words of the specification

    What it means for a keyword to occur as a whole word, stated on the
    text and not through the matcher. *)

(** The character just before the rest of the subject once [a] has been
    read, when [prev] was the one before [a]. *)
Definition prev_after (prev : option char) (a : str) : option char :=
  match last a with
  | Some c => Some c
  | None => prev
  end.

(** There is a word boundary between the adjacent pieces [l] and [r] of a
    subject: exactly one of the last character of [l] and the first of [r] is
    a word character (a missing neighbour counts as non-word). *)
Definition boundary_between (U : unicode) (l r : str) : Prop :=
  wordp U (last l) <> wordp U (head r).

(** [w] occurs in [text] as a whole word: somewhere [text] reads [w], with a
    word boundary just before and just after that occurrence. *)
Definition occurs_as_whole_word (U : unicode) (w text : str) : Prop :=
  exists pre post,
    text = pre ++ w ++ post
    /\ boundary_between U pre (w ++ post)
    /\ boundary_between U (pre ++ w) post.

(** The characters of a tags text that yields no tag. *)
Definition comma_or_space (c : char) : bool := isspace c || (c =? 44).

(** What makes a tag well formed: not empty, no comma inside, no white
    space at either end. *)
Definition well_formed_tag (tag : str) : Prop :=
  tag <> []
  /\ (44 ∉ tag)
  /\ (forall c, head tag = Some c -> isspace c = false)
  /\ (forall c, last tag = Some c -> isspace c = false).

(** The text of [s] before the first occurrence of [marker], all of [s]
    when there is none; and the text after that occurrence. *)
Fixpoint up_to (marker s : str) : str :=
  if startswith marker s then []
  else match s with
       | [] => []
       | c :: s' => c :: up_to marker s'
       end.

Fixpoint after (marker s : str) : str :=
  if startswith marker s then drop (length marker) s
  else match s with
       | [] => []
       | _ :: s' => after marker s'
       end.

(** The text an answer gives for the headline: what follows the first
    Headline: up to the next Headline: or Summary:. *)
Definition headline_text (result : str) : str :=
  up_to SUMMARY (up_to HEADLINE (after HEADLINE result)).

(** The text an answer gives for the summary: what follows the first
    Summary: up to the next Summary: or Tag:, stripped, then up to Tags:,
    stripped. *)
Definition summary_text (result : str) : str :=
  strip (up_to TAGS (strip (up_to TAG (up_to SUMMARY (after SUMMARY result))))).

(** A text that begins with the letters t, a, g, in either case; and one
    that holds them somewhere. *)
Definition begins_with_tag (s : str) : bool :=
  match s with
  | c1 :: c2 :: c3 :: _ =>
      ((c1 =? 116) || (c1 =? 84)) && ((c2 =? 97) || (c2 =? 65))
      && ((c3 =? 103) || (c3 =? 71))
  | _ => false
  end.

Fixpoint mentions_tag (s : str) : bool :=
  match s with
  | [] => false
  | _ :: s' => begins_with_tag s || mentions_tag s'
  end.

(** The text searched for the keywords when every field is a string, with
    [None] for no text. *)
Definition fields_text (U : unicode) (article : gmap string pyval) : str :=
  lower U (or_empty (get article "title" (PStr [])) ++ [32]
           ++ or_empty (get article "description" (PStr [])) ++ [32]
           ++ or_empty (get article "content" (PStr []))).

(** An article the summarize tool accepts: its title, description and
    content are strings. *)
Definition valid_for_tool (article : gmap string pyval) : bool :=
  is_str (get article "title" (PStr []))
  && is_str (get article "description" (PStr []))
  && is_str (get article "content" (PStr [])).

(** The articles before the first one the tool refuses: those the model is
    called for. *)
Fixpoint called_articles (arts : list (gmap string pyval)) : list (gmap string pyval) :=
  match arts with
  | [] => []
  | article :: rest =>
      if valid_for_tool article then article :: called_articles rest else []
  end.

(** The text of an article that reaches the model, written out: of each of
    the three fields the word characters, the white space and the
    characters [. , ! ?] are kept, the three are joined with a full stop
    and a space, the ends are stripped, and the first 1500 characters are
    taken. *)
Definition kept_in_field (U : unicode) (c : char) : bool :=
  isword U c || isspace c || (c =? 46) || (c =? 44) || (c =? 33) || (c =? 63).

Definition article_text (U : unicode) (t d c : str) : str :=
  take 1500
    (strip (List.filter (kept_in_field U) t ++ [46; 32]
            ++ List.filter (kept_in_field U) d ++ [46; 32]
            ++ List.filter (kept_in_field U) c)).

Definition model_input (U : unicode) (article : gmap string pyval) : str :=
  article_text U (or_empty (get article "title" (PStr [])))
                 (or_empty (get article "description" (PStr [])))
                 (or_empty (get article "content" (PStr []))).

(** The dict the tool makes of an outcome of the model call. *)
Definition tool_answer (U : unicode) (o : outcome) : tool_result :=
  match o with
  | Returned result => default fallback (parse_response U result)
  | Raised => fallback
  end.

(** The state of the backend after the model has been called for each of
    [arts], in order. *)
Definition world_after (U : unicode) (L : backend)
    (arts : list (gmap string pyval)) (w : world L) : world L :=
  foldl (fun w' article => (chain_run L (model_input U article) w').2) w arts.

(** The date a summary shows for a [publishedAt] value: the date library's
    rendering when it reads the value, with a final [Z] read as [+00:00];
    the value itself otherwise. *)
Definition shown_date (D : datelib) (published : pyval) : pyval :=
  match published with
  | PNone => PNone
  | PStr iso =>
      PStr (match fromisoformat D (replace_chr 90 (lit "+00:00") iso) with
            | Some dt => strftime D dt
            | None => iso
            end)
  end.

(** The patterns whose every match reaches the end of the subject: those
    that end with [$]. *)
Fixpoint ends_at_eol (r : regex) : bool :=
  match r with
  | Eol => true
  | Cat _ r2 => ends_at_eol r2
  | _ => false
  end.

(** An answer in the shape the prompt asks for (line 82):
    [Headline: <headline>], [Summary: <summary>], [Tags: <tag1, tag2, tag3>],
    one per line. *)
Definition format_answer (h s : str) (tgs : list str) : str :=
  lit "Headline: " ++ h ++ [10] ++ lit "Summary: " ++ s ++ [10]
  ++ lit "Tags: " ++ join (lit ", ") tgs.

(** ** Model inputs for running the definitions *)

(** A backend that gives the same outcome to every call. *)
Definition scripted (o : outcome) : backend :=
  {| world := unit; chain_run := fun _ w => (o, w) |}.

(** A date library that parses nothing. *)
Definition no_dates : datelib :=
  {| datetime := unit; fromisoformat := fun _ => None; strftime := fun _ => [] |}.

(** A backend that counts its calls and answers with the text it was sent:
    the first 12 characters as headline, the text as summary, and the number
    of the call as tag. *)
Definition echoing : backend :=
  {| world := N;
     chain_run := fun text n =>
       (Returned (format_answer (take 12 text) text [lit "call " ++ [48 + n]]),
        n + 1) |}.

(** A date library that reads a date and time with an offset of hours and
    minutes, 25 characters in all, and renders its day. *)
Definition day_of_date : datelib :=
  {| datetime := str;
     fromisoformat := fun s => if (length s =? 25)%nat then Some (take 10 s) else None;
     strftime := fun day => day |}.

(** The article of the specification's round-trip scenario, as [get_news]
    stores it. *)
Definition scenario_article : gmap string pyval :=
  <[ "title" := PStr (lit "Electric Vehicles surge") ]>
  (<[ "description" := PStr (lit "EV sales rise") ]>
  (<[ "content" := PStr (lit "... [+120 chars]") ]>
  (<[ "source" := PStr [] ]>
  (<[ "publishedAt" := PStr (lit "2024-03-05T14:30:00Z") ]>
  (<[ "url" := PStr [] ]> ∅))))).

(** An article whose description the backend sent as [null]. *)
Definition null_description_article : gmap string pyval :=
  <[ "description" := PNone ]> scenario_article.

(** Another article, from a named source, with a date that is no ISO
    date. *)
Definition second_article : gmap string pyval :=
  <[ "title" := PStr (lit "Battery prices fall!") ]>
  (<[ "description" := PStr (lit "Cells are cheaper") ]>
  (<[ "content" := PStr (lit "Makers report lower costs.") ]>
  (<[ "source" := PStr (lit "Wire") ]>
  (<[ "publishedAt" := PStr (lit "yesterday") ]>
  (<[ "url" := PStr (lit "https://example.org/a") ]> ∅))))).

(** The answer of the backend with one article, the scenario's, whose
    [source] object has no name. *)
Definition scenario_response : response :=
  {| status := Some (PStr (lit "ok"));
     articles := Some [ {| fields := scenario_article; source := Some ∅ |} ] |}.

(** The summary entries of the scenario's article and of the second one,
    when the echoing backend is asked for them in this order and the dates
    are read by [day_of_date]. *)
Definition first_echoed_summary : summary_entry :=
  {| s_result :=
       {| headline := lit "Electric Veh";
          summary := lit "Electric Vehicles surge. EV sales rise. ... 120 chars";
          tags := [lit "call 0"] |};
     s_source := PStr [];
     s_date := PStr (lit "2024-03-05") |}.

Definition second_echoed_summary : summary_entry :=
  {| s_result :=
       {| headline := lit "Battery pric";
          summary :=
            lit "Battery prices fall!. Cells are cheaper. Makers report lower costs.";
          tags := [lit "call 1"] |};
     s_source := PStr (lit "Wire");
     s_date := PStr (lit "yesterday") |}.

(** The summary entry the fallback gives for the scenario's article. *)
Definition scenario_summary : summary_entry :=
  {| s_result := fallback;
     s_source := PStr [];
     s_date := PStr (lit "2024-03-05T14:30:00Z") |}.

(** An answer in the shape the prompt asks for, and one whose summary
    speaks of price tags. *)
Definition well_formed_answer : str :=
  lit "Headline: EV Sales Soar" ++ [10] ++ lit "Summary: Sales rose sharply."
  ++ [10] ++ lit "Tags: EV, Sales, Growth".

Definition price_tags_answer : str :=
  lit "Headline: Prices" ++ [10] ++ lit "Summary: Tag prices rose sharply.".

(** A news backend that answers every query with the scenario's answer,
    and one that reports an error. *)
Definition scenario_news : str -> response := fun _ => scenario_response.

Definition failing_news : str -> response :=
  fun _ => {| status := Some (PStr (lit "error")); articles := None |}.

(** A news backend whose one article has a [null] description. *)
Definition null_description_news : str -> response :=
  fun _ => {| status := Some (PStr (lit "ok"));
              articles := Some [ {| fields := null_description_article;
                                    source := Some ∅ |} ] |}.

(** ** The tables restricted to ASCII, for running the model on ASCII text *)

Definition ascii_to_lower (c : char) : char :=
  if is_ascii_upper c then c + 32 else c.

Lemma isspace_not_upper (c : char) : isspace c = true -> is_ascii_upper c = false.
Proof. unfold isspace, is_ascii_upper. lia. Qed.

Lemma ascii_lower_blank (s : str) :
  forallb isspace s = true -> ascii_to_lower <$> s = s.
Proof.
  induction s as [|c s IH]; [done|].
  intros [Hc Hs]%andb_prop. rewrite fmap_cons, (IH Hs).
  unfold ascii_to_lower. by rewrite (isspace_not_upper c Hc).
Qed.

(** No alphanumerics or digits are assumed beyond ASCII, and [lower] acts on
    [A-Z] only: this agrees with CPython on ASCII subjects. *)
Definition ascii_tables : unicode :=
  {| alnum_hi := fun _ => false;
     decimal_hi := fun _ => false;
     lower := fmap ascii_to_lower;
     lower_blank := ascii_lower_blank |}.

(** * Properties *)

(** ** What a search for [\bword\b] finds *)

Lemma prev_after_nil prev : prev_after prev [] = prev.
Proof. done. Qed.

Lemma prev_after_cons prev c a :
  prev_after prev (c :: a) = prev_after (Some c) a.
Proof.
  unfold prev_after. destruct a as [|d a]; [done|].
  rewrite last_cons. by destruct (last (d :: a)).
Qed.

Lemma prev_after_app prev a b :
  prev_after prev (a ++ b) = prev_after (prev_after prev a) b.
Proof.
  revert prev. induction a as [|c a IH]; intros prev; [done|].
  simpl. by rewrite !prev_after_cons, IH.
Qed.

Lemma prev_after_None a : prev_after None a = last a.
Proof. unfold prev_after. by destruct (last a). Qed.

Lemma at_boundary_iff U prev s :
  at_boundary U prev s = true <-> wordp U prev <> wordp U (head s).
Proof.
  unfold at_boundary.
  destruct (wordp U prev), (wordp U (head s)); simpl; split; congruence.
Qed.

Section SearchSpec.
Context (U : unicode).

(** Matching the literal characters of [w] succeeds exactly when the
    subject starts with [w], and continues after it. *)
Lemma rmatch_lits w prev s k r :
  rmatch U (lits w) prev s k = Some r
  <-> exists s', s = w ++ s' /\ k (prev_after prev w) s' = Some r.
Proof.
  revert prev s. induction w as [|c w IH]; intros prev s; simpl.
  - split; [eauto|]. by intros (s' & -> & H).
  - destruct s as [|d s].
    + split; [done|]. by intros (s' & ? & _).
    + unfold is_chr at 1. destruct (N.eqb_spec d c) as [->|Hne].
      * rewrite IH. setoid_rewrite prev_after_cons.
        split; intros (s' & Hs & Hk); exists s'; split; auto; congruence.
      * split; [done|]. intros (s' & Hs & _). congruence.
Qed.

Lemma match_here_word w prev s r :
  match_here U (word_pattern w) prev s = Some r
  <-> at_boundary U prev s = true
      /\ exists s', s = w ++ s' /\ at_boundary U (prev_after prev w) s' = true /\ r = s'.
Proof.
  unfold match_here, word_pattern. simpl.
  destruct (at_boundary U prev s); [|split; [done|by intros [? _]]].
  rewrite rmatch_lits. split.
  - intros (s' & -> & Hk). split; [done|]. exists s'.
    destruct (at_boundary U (prev_after prev w) s'); [|done].
    split; [done|]. split; [done|]. congruence.
  - intros (_ & s' & -> & Hb & ->). exists s'. split; [done|]. by rewrite Hb.
Qed.

(** The scan tries every position from left to right. *)
Lemma search_from_spec r prev s :
  search_from U r prev s = true
  <-> exists a b, s = a ++ b /\ is_Some (match_here U r (prev_after prev a) b).
Proof.
  revert prev. induction s as [|c s IH]; intros prev; simpl.
  - destruct (match_here U r prev []) as [x|] eqn:E.
    + split; [|done]. intros _. exists [], []. by rewrite prev_after_nil, E.
    + split; [done|]. intros (a & b & Hab & Hm).
      symmetry in Hab. apply app_eq_nil in Hab as [-> ->].
      rewrite prev_after_nil, E in Hm. by destruct Hm.
  - destruct (match_here U r prev (c :: s)) as [x|] eqn:E.
    + split; [|done]. intros _. exists [], (c :: s). by rewrite prev_after_nil, E.
    + rewrite IH. split.
      * intros (a & b & -> & Hm). exists (c :: a), b.
        by rewrite prev_after_cons.
      * intros (a & b & Hab & Hm). destruct a as [|d a].
        -- simpl in Hab. subst b. rewrite prev_after_nil, E in Hm. by destruct Hm.
        -- simpl in Hab. injection Hab as <- ->. exists a, b.
           by rewrite prev_after_cons in Hm.
Qed.

(** [re.search] with the pattern [\bw\b] decides [occurs_as_whole_word]. *)
Lemma re_search_word w text :
  re_search U (word_pattern w) text = true <-> occurs_as_whole_word U w text.
Proof.
  unfold re_search, occurs_as_whole_word, boundary_between.
  rewrite search_from_spec. split.
  - intros (a & b & -> & [r Hm]). apply match_here_word in Hm
      as (Hb1 & s' & -> & Hb2 & _).
    exists a, s'. split; [done|].
    rewrite <- prev_after_app in Hb2.
    apply at_boundary_iff in Hb1, Hb2.
    by rewrite !prev_after_None in *.
  - intros (pre & post & -> & Hb1 & Hb2). exists pre, (w ++ post).
    split; [done|]. exists post. apply match_here_word.
    rewrite <- prev_after_app, !prev_after_None, at_boundary_iff.
    split; [done|]. exists post. by rewrite at_boundary_iff.
Qed.
End SearchSpec.

(** What [is_relevant] computes: it answers true exactly when every keyword
    of the whitespace-split, lower-cased topic occurs as a whole word (a
    word boundary on each side) in the lower-cased text the f-string makes
    of the article, where a [null] field reads None. *)
Lemma is_relevant_iff_all_keywords_whole_words
    (U : unicode) (article : gmap string pyval) (topic : str) :
  is_relevant U article topic = true
  <-> Forall (fun word => occurs_as_whole_word U word (combined_text U article))
             (split (lower U topic)).
Proof.
  unfold is_relevant. rewrite forallb_forall, Forall_forall.
  split; intros H w Hw.
  - apply re_search_word, H. by apply list_elem_of_In.
  - apply re_search_word, H. by apply list_elem_of_In.
Qed.

(** On an article whose three text entries are strings (an absent key
    counts as the empty string) the text searched is their lower-cased
    concatenation, one space between the parts. *)
Lemma combined_text_of_strings U (article : gmap string pyval) (t d c : str) :
  get article "title" (PStr []) = PStr t ->
  get article "description" (PStr []) = PStr d ->
  get article "content" (PStr []) = PStr c ->
  combined_text U article = lower U (t ++ [32] ++ d ++ [32] ++ c).
Proof. unfold combined_text. by intros -> -> ->. Qed.

(** On an article whose title, description and content are strings (an
    absent key counts as the empty string), [is_relevant] answers true
    exactly when every keyword of the lower-cased topic occurs as a whole
    word in the lower-cased concatenation of the three, one space between
    them. *)
Lemma is_relevant_on_string_fields U (article : gmap string pyval) (topic : str) :
  valid_for_tool article = true ->
  is_relevant U article topic = true
  <-> Forall (fun word => occurs_as_whole_word U word (fields_text U article))
             (split (lower U topic)).
Proof.
  intros Hv. rewrite is_relevant_iff_all_keywords_whole_words.
  replace (combined_text U article) with (fields_text U article); [done|].
  unfold valid_for_tool in Hv. unfold fields_text, combined_text.
  destruct (get article "title" (PStr [])); [done|].
  destruct (get article "description" (PStr [])); [done|].
  by destruct (get article "content" (PStr [])).
Qed.

(** C1. The claim fails on the code at an article whose description is
    [null]: for the topic none, whose only keyword is none, [is_relevant]
    answers true on the article with the title Electric Vehicles surge, no
    description and the content ... [+120 chars], though the keyword does
    not occur as a whole word in the lower-cased concatenation of the
    title, the description and the content.  The f-string writes the
    [null] as the word None. *)
Theorem is_relevant_finds_none_in_null_field :
  get null_description_article "title" (PStr []) = PStr (lit "Electric Vehicles surge")
  /\ get null_description_article "description" (PStr []) = PNone
  /\ get null_description_article "content" (PStr []) = PStr (lit "... [+120 chars]")
  /\ split (lower ascii_tables (lit "none")) = [lit "none"]
  /\ is_relevant ascii_tables null_description_article (lit "none") = true
  /\ ~ occurs_as_whole_word ascii_tables (lit "none")
         (lower ascii_tables
            (lit "Electric Vehicles surge" ++ [32] ++ [] ++ [32]
             ++ lit "... [+120 chars]"))
  /\ fields_text ascii_tables null_description_article
     = lit "electric vehicles surge  ... [+120 chars]".
Proof.
  do 5 (split; [reflexivity|]). split; [|reflexivity].
  intros H%re_search_word. by vm_compute in H.
Qed.

(** ** Fetching *)

Lemma combined_text_fetched U (a : raw_article) :
  combined_text U (fetched a) = combined_text U (fields a).
Proof. unfold combined_text, fetched, get. by simplify_map_eq. Qed.

(** Rebuilding the dict does not change the verdict: the three entries the
    filter reads are copied with the defaults the filter itself uses. *)
Lemma is_relevant_fetched U (a : raw_article) topic :
  is_relevant U (fetched a) topic = is_relevant U (fields a) topic.
Proof. unfold is_relevant. by rewrite combined_text_fetched. Qed.

(** C2. Whatever the backend answers, [get_news] returns at most 5 articles
    and each of them satisfies [is_relevant] for the topic. *)
Theorem get_news_at_most_5_all_relevant (U : unicode) (r : response) (topic : str) :
  (length (get_news U r topic) <= 5)%nat
  /\ Forall (fun article => is_relevant U article topic = true) (get_news U r topic).
Proof.
  unfold get_news. split.
  - rewrite length_take. lia.
  - apply Forall_take. destruct (status_ok r); [|constructor].
    apply Forall_fmap, Forall_forall. intros a Ha.
    apply list_elem_of_In, filter_In in Ha as [_ Ha].
    simpl. by rewrite is_relevant_fetched.
Qed.

Lemma split_ws_blank (s : str) : forallb isspace s = true -> split_ws [] s = [].
Proof.
  induction s as [|c s IH]; simpl; [done|].
  intros [Hc Hs]%andb_prop. rewrite Hc. auto.
Qed.

Lemma filter_all {A} (f : A -> bool) (l : list A) :
  (forall x, f x = true) -> List.filter f l = l.
Proof.
  intros Hf. induction l as [|x l IH]; simpl; [done|]. by rewrite Hf, IH.
Qed.

(** C8. A topic that is empty or all white space has no keywords: every
    article is relevant to it, so [get_news] returns the first 5 articles of
    the answer, none filtered out. *)
Theorem blank_topic_keeps_every_article (U : unicode) (topic : str) :
  forallb isspace topic = true ->
  (forall article, is_relevant U article topic = true)
  /\ (forall r,
        get_news U r topic
        = take 5 (if status_ok r then fetched <$> default [] (articles r) else [])).
Proof.
  intros Hblank.
  assert (Hrel : forall article, is_relevant U article topic = true).
  { intros article. unfold is_relevant, split.
    by rewrite (lower_blank U topic Hblank), (split_ws_blank topic Hblank). }
  split; [done|]. intros r. unfold get_news.
  by rewrite filter_all by (intros a; apply Hrel).
Qed.

(** ** The summarize node *)

Lemma clean_kept_in_field U (x : pyval) :
  clean U x = List.filter (kept_in_field U) (or_empty x).
Proof.
  unfold clean. apply List.filter_ext. intros c.
  unfold kept_in_field, kept_punct. by rewrite !orb_assoc.
Qed.

Lemma truncated_text_article_text U (title description content : pyval) :
  truncated_text U title description content
  = article_text U (or_empty title) (or_empty description) (or_empty content).
Proof. unfold truncated_text, article_text. by rewrite !clean_kept_in_field. Qed.

Lemma format_date_shown_date D (published : pyval) :
  format_date D published = shown_date D published.
Proof.
  destruct published as [|iso]; [done|]. simpl.
  by destruct (fromisoformat D (replace_chr 90 (lit "+00:00") iso)).
Qed.

Lemma summarize_article_tool_answer U L (title description content : pyval) w :
  summarize_article_tool U L title description content w
  = (tool_answer U (chain_run L (truncated_text U title description content) w).1,
     (chain_run L (truncated_text U title description content) w).2).
Proof.
  unfold summarize_article_tool.
  by destruct (chain_run L (truncated_text U title description content) w) as [[r|] w'].
Qed.

(** An article whose three fields are strings: the model is called with its
    text. *)
Lemma summarize_one_valid U D L article w :
  valid_for_tool article = true ->
  summarize_one U D L article w
  = (Some {| s_result := tool_answer U (chain_run L (model_input U article) w).1;
             s_source := get article "source" (PStr []);
             s_date := shown_date D (get article "publishedAt" (PStr [])) |},
     (chain_run L (model_input U article) w).2).
Proof.
  unfold valid_for_tool, summarize_one, summarize_article_tool_invoke. intros ->.
  by rewrite summarize_article_tool_answer, format_date_shown_date,
    truncated_text_article_text.
Qed.

(** An article with a [null] among the three: the wrapper raises, and the
    model is not called. *)
Lemma summarize_one_invalid U D L article w :
  valid_for_tool article = false ->
  summarize_one U D L article w = (None, w).
Proof.
  unfold valid_for_tool, summarize_one, summarize_article_tool_invoke.
  by intros ->.
Qed.

Lemma summarize_node_cons_valid U D L article rest w :
  valid_for_tool article = true ->
  summarize_node U D L (article :: rest) w
  = let w1 := (chain_run L (model_input U article) w).2 in
    (es ← (summarize_node U D L rest w1).1;
     Some ({| s_result := tool_answer U (chain_run L (model_input U article) w).1;
              s_source := get article "source" (PStr []);
              s_date := shown_date D (get article "publishedAt" (PStr [])) |}
           :: es),
     (summarize_node U D L rest w1).2).
Proof.
  intros Hv. cbn [summarize_node]. rewrite (summarize_one_valid _ _ _ _ _ Hv).
  cbv zeta. by destruct (summarize_node U D L rest _).
Qed.

Lemma summarize_node_cons_invalid U D L article rest w :
  valid_for_tool article = false ->
  summarize_node U D L (article :: rest) w = (None, w).
Proof.
  intros Hv. cbn [summarize_node]. by rewrite (summarize_one_invalid _ _ _ _ _ Hv).
Qed.

(** Where the stage leaves the backend: after the calls for the articles
    before the first refused one. *)
Lemma summarize_node_world U D L arts w :
  (summarize_node U D L arts w).2 = world_after U L (called_articles arts) w.
Proof.
  revert w. induction arts as [|a rest IH]; intros w; [done|].
  cbn [called_articles]. destruct (valid_for_tool a) eqn:Hv.
  - rewrite (summarize_node_cons_valid _ _ _ _ _ _ Hv). cbn [snd].
    by rewrite IH.
  - by rewrite (summarize_node_cons_invalid _ _ _ _ _ _ Hv).
Qed.

Lemma summarize_node_is_Some U D L arts w :
  is_Some (summarize_node U D L arts w).1
  <-> Forall (fun article => valid_for_tool article = true) arts.
Proof.
  revert w. induction arts as [|a rest IH]; intros w.
  - split; [by constructor|by eexists].
  - rewrite Forall_cons. destruct (valid_for_tool a) eqn:Hv.
    + rewrite (summarize_node_cons_valid _ _ _ _ _ _ Hv). cbn [fst].
      rewrite <- (IH (chain_run L (model_input U a) w).2).
      destruct (summarize_node U D L rest _) as [[es|] w2]; cbn.
      * split; [by split; [|eexists]|by eexists].
      * split; [by intros []|by intros [_ []]].
    + rewrite (summarize_node_cons_invalid _ _ _ _ _ _ Hv). cbn [fst].
      split; [by intros []|by intros []].
Qed.

Lemma called_articles_all arts :
  Forall (fun article => valid_for_tool article = true) arts <->
  called_articles arts = arts.
Proof.
  induction arts as [|a rest IH]; [done|].
  rewrite Forall_cons. cbn [called_articles].
  destruct (valid_for_tool a); [|by split; [intros []|]].
  rewrite IH. split; [by intros [_ ->]|]. intros H. by injection H.
Qed.

Lemma summarize_node_Some U D L arts w summaries :
  (summarize_node U D L arts w).1 = Some summaries ->
  length summaries = length arts
  /\ forall (i : nat) article,
       arts !! i = Some article ->
       exists e,
         summaries !! i = Some e
         /\ s_result e
            = tool_answer U (chain_run L (model_input U article)
                                (world_after U L (take i arts) w)).1
         /\ s_source e = get article "source" (PStr [])
         /\ s_date e = shown_date D (get article "publishedAt" (PStr [])).
Proof.
  revert w summaries. induction arts as [|a rest IH]; intros w summaries.
  - intros H. apply (inj Some) in H. subst summaries.
    split; [done|]. intros i article Hi. by rewrite lookup_nil in Hi.
  - destruct (valid_for_tool a) eqn:Hv.
    2: { by rewrite (summarize_node_cons_invalid _ _ _ _ _ _ Hv). }
    rewrite (summarize_node_cons_valid _ _ _ _ _ _ Hv). cbn [fst].
    destruct (summarize_node U D L rest (chain_run L (model_input U a) w).2).1
      as [es|] eqn:Hes; [|done].
    cbn [mbind option_bind]. intros H. apply (inj Some) in H. subst summaries.
    destruct (IH _ _ Hes) as [Hlen Hidx]. split.
    + cbn [length]. by rewrite Hlen.
    + intros [|i] article Hi; cbn in Hi.
      * apply (inj Some) in Hi. subst article. eexists. by split.
      * destruct (Hidx i article Hi) as (e & He & Hr & Hsd). exists e.
        split; [done|]. split; [|done]. by rewrite Hr.
Qed.

(** C7. The summarize stage returns exactly when every article has a
    string for title, description and content (on a [null] among them the
    tool wrapper raises).  When it returns, there is one summary per
    article, in order: the lists have the same length, and the summary at
    index [i] is the tool's dict for the answer of the model to the text of
    the article at index [i], asked once the [i] articles before it are
    done; it carries that article's source name and its formatted date. *)
Theorem summarize_node_pairs_by_index
    (U : unicode) (D : datelib) (L : backend)
    (arts : list (gmap string pyval)) (w : world L) :
  (is_Some (summarize_node U D L arts w).1
   <-> Forall (fun article => valid_for_tool article = true) arts)
  /\ forall summaries,
       (summarize_node U D L arts w).1 = Some summaries ->
       length summaries = length arts
       /\ forall (i : nat) article,
            arts !! i = Some article ->
            exists e,
              summaries !! i = Some e
              /\ s_result e
                 = tool_answer U (chain_run L (model_input U article)
                                     (world_after U L (take i arts) w)).1
              /\ s_source e = get article "source" (PStr [])
              /\ s_date e = shown_date D (get article "publishedAt" (PStr [])).
Proof.
  split; [apply summarize_node_is_Some|]. apply summarize_node_Some.
Qed.

(** ** Facts about the string methods *)

Lemma lstrip_length (s : str) : (length (lstrip s) <= length s)%nat.
Proof.
  induction s as [|c s IH]; simpl; [done|].
  destruct (isspace c); simpl; lia.
Qed.

Lemma rstrip_length (s : str) : (length (rstrip s) <= length s)%nat.
Proof.
  unfold rstrip. rewrite length_rev, <- (length_rev s). apply lstrip_length.
Qed.

Lemma strip_length (s : str) : (length (strip s) <= length s)%nat.
Proof.
  unfold strip. etrans; [apply lstrip_length|apply rstrip_length].
Qed.

Lemma lstrip_chr_length x (s : str) : (length (lstrip_chr x s) <= length s)%nat.
Proof.
  induction s as [|c s IH]; simpl; [done|].
  destruct (c =? x); simpl; lia.
Qed.

Lemma rstrip_chr_length x (s : str) : (length (rstrip_chr x s) <= length s)%nat.
Proof.
  unfold rstrip_chr. rewrite length_rev, <- (length_rev s). apply lstrip_chr_length.
Qed.

(** Stripping white space keeps a last character that is not white space. *)
Lemma lstrip_last (s : str) x :
  last s = Some x -> isspace x = false -> last (lstrip s) = Some x.
Proof.
  intros Hlast Hx. induction s as [|c s IH]; simpl; [done|].
  destruct (isspace c) eqn:Hc; [|done].
  destruct s as [|d s]; simpl in *; [congruence|]. by apply IH.
Qed.

Lemma rstrip_last (s : str) x :
  last s = Some x -> isspace x = false -> rstrip s = s.
Proof.
  intros Hlast Hx. apply last_Some in Hlast as [s0 ->].
  unfold rstrip. rewrite rev_app_distr. simpl. rewrite Hx.
  change (x :: rev s0) with (rev [x] ++ rev s0).
  by rewrite <- rev_app_distr, rev_involutive.
Qed.

Lemma strip_last (s : str) x :
  last s = Some x -> isspace x = false -> last (strip s) = Some x.
Proof.
  intros Hlast Hx. unfold strip. rewrite (rstrip_last s x Hlast Hx).
  by apply lstrip_last.
Qed.

Lemma rfind_Some x (s : str) i :
  rfind x s = Some i -> last (take (i + 1) s) = Some x.
Proof.
  revert i. induction s as [|c s IH]; intros i; simpl; [done|].
  destruct (rfind x s) as [j|] eqn:E.
  - intros [= <-]. specialize (IH j eq_refl).
    replace (S j + 1)%nat with (S (j + 1)) by lia. simpl.
    destruct (take (j + 1) s) eqn:Et; [done|]. by rewrite last_cons, IH.
  - destruct (N.eqb_spec c x) as [->|]; [|done]. by intros [= <-].
Qed.

Lemma rfind_None x (s : str) : rfind x s = None -> x ∉ s.
Proof.
  induction s as [|c s IH]; simpl; [intros _; apply not_elem_of_nil|].
  destruct (rfind x s); [done|].
  destruct (N.eqb_spec c x) as [|Hne]; [done|]. intros _.
  apply not_elem_of_cons. split; [congruence|by apply IH].
Qed.

(** ** Trimming the description *)

Lemma truncated_window_length U d c : (length (truncated_window U d c) <= 700)%nat.
Proof. unfold truncated_window. rewrite length_take. lia. Qed.

(** The returned text always ends with a full stop. *)
Lemma combine_and_trim_ends_with_dot U d c :
  last (combine_and_trim_description U d c) = Some 46.
Proof.
  unfold combine_and_trim_description. apply strip_last; [|done].
  destruct (rfind 46 (truncated_window U d c)) as [i|] eqn:E.
  - by apply rfind_Some.
  - apply last_snoc.
Qed.

(** C3, as amended. The returned text has at most 701 characters; when the
    window of at most 700 characters holds a full stop, the text has at most
    700 characters and ends with a full stop. *)
Theorem combine_and_trim_length_bound (U : unicode) (description content : pyval) :
  (length (combine_and_trim_description U description content) <= 701)%nat
  /\ (46 ∈ truncated_window U description content ->
      (length (combine_and_trim_description U description content) <= 700)%nat
      /\ last (combine_and_trim_description U description content) = Some 46).
Proof.
  pose proof (truncated_window_length U description content) as Hw.
  pose proof (combine_and_trim_ends_with_dot U description content) as Hdot.
  unfold combine_and_trim_description in *.
  destruct (rfind 46 (truncated_window U description content)) as [i|] eqn:E.
  - assert (length (strip (take (i + 1) (truncated_window U description content)))
            <= 700)%nat.
    { etrans; [apply strip_length|]. rewrite length_take. lia. }
    split; [lia|]. done.
  - split.
    + etrans; [apply strip_length|]. rewrite length_app. simpl.
      pose proof (rstrip_chr_length 46 (truncated_window U description content)). lia.
    + intros Hin. by apply rfind_None in E.
Qed.

(** C3 as stated fails: 700 letters and no full stop give 701 characters. *)
Lemma combine_and_trim_701 :
  ~ (length (combine_and_trim_description ascii_tables (PStr (replicate 700%nat 97%N)) (PStr []))
     <= 700)%nat.
Proof. vm_compute. lia. Qed.

(** C9. The returned text is never empty and always ends with a full stop;
    for an empty description and empty content it is the one-character
    string of a full stop. *)
Theorem combine_and_trim_nonempty_ends_with_dot
    (U : unicode) (description content : pyval) :
  combine_and_trim_description U description content <> []
  /\ last (combine_and_trim_description U description content) = Some 46
  /\ combine_and_trim_description U (PStr []) (PStr []) = [46].
Proof.
  pose proof (combine_and_trim_ends_with_dot U description content) as Hdot.
  split; [|split; [done|reflexivity]].
  intros Hnil. by rewrite Hnil in Hdot.
Qed.

(** ** Splitting at a marker *)

Lemma partition_contains sep (s : str) :
  contains sep s = true -> is_Some (partition sep s).
Proof.
  induction s as [|c s IH]; simpl.
  - destruct (startswith sep []); [by eexists|done].
  - destruct (startswith sep (c :: s)); [by eexists|]. simpl.
    intros [[a b] ->]%IH. by eexists.
Qed.

Lemma split_on_fuel_head n sep (s : str) :
  exists p ps, split_on_fuel n sep s = p :: ps.
Proof.
  destruct n as [|n]; simpl; [by eexists _, _|].
  destruct (partition sep s) as [[a b]|]; by eexists _, _.
Qed.

(** [s.split(sep)[0]] never raises. *)
Lemma split_on_lookup_0 sep (s : str) : is_Some (split_on sep s !! 0%nat).
Proof.
  unfold split_on. destruct (split_on_fuel_head (length s) sep s) as (p & ps & ->).
  by eexists.
Qed.

(** [s.split(sep)[1]] does not raise when [sep in s]. *)
Lemma split_on_lookup_1 sep (s : str) :
  sep <> [] -> contains sep s = true -> is_Some (split_on sep s !! 1%nat).
Proof.
  intros Hsep Hin. unfold split_on. destruct s as [|c s].
  - simpl in Hin. destruct sep; [done|discriminate].
  - cbn [length split_on_fuel].
    destruct (partition_contains sep (c :: s) Hin) as [[a b] ->].
    destruct (split_on_fuel_head (length s) sep b) as (p & ps & ->). by eexists.
Qed.

Lemma partition_chr_Some x (s a b : str) :
  partition [x] s = Some (a, b) -> s = a ++ x :: b /\ x ∉ a.
Proof.
  revert a. induction s as [|c s IH]; intros a; simpl; [done|].
  destruct (N.eqb_spec x c) as [<-|Hne]; simpl.
  - intros [= <- <-]. split; [done|apply not_elem_of_nil].
  - destruct (partition [x] s) as [[a' b']|]; [|done].
    intros [= <- <-]. destruct (IH a' eq_refl) as [-> Hx].
    split; [done|]. apply not_elem_of_cons. split; [done|exact Hx].
Qed.

Lemma partition_chr_None x (s : str) : partition [x] s = None -> x ∉ s.
Proof.
  induction s as [|c s IH]; simpl; [intros _; apply not_elem_of_nil|].
  destruct (N.eqb_spec x c) as [<-|Hne]; simpl; [done|].
  destruct (partition [x] s) as [[a' b']|]; [done|]. intros _.
  apply not_elem_of_cons. split; [done|by apply IH].
Qed.

(** ** Text made of commas and white space only *)

Lemma blank_of_no_comma (s : str) :
  forallb comma_or_space s = true -> 44 ∉ s -> forallb isspace s = true.
Proof.
  induction s as [|c s IH]; simpl; [done|].
  intros [Hc Hs]%andb_prop Hnin.
  apply not_elem_of_cons in Hnin as [Hne Hnin].
  rewrite IH by done. unfold comma_or_space in Hc.
  destruct (isspace c); [done|]. simpl in Hc. apply N.eqb_eq in Hc. congruence.
Qed.

Lemma forallb_app_inv {A} (f : A -> bool) (l1 l2 : list A) :
  forallb f (l1 ++ l2) = true -> forallb f l1 = true /\ forallb f l2 = true.
Proof. rewrite forallb_app. apply andb_prop. Qed.

Lemma lstrip_blank (s : str) : forallb isspace s = true -> lstrip s = [].
Proof.
  induction s as [|c s IH]; simpl; [done|].
  intros [-> Hs]%andb_prop. auto.
Qed.

Lemma lstrip_forallb (f : char -> bool) (s : str) :
  forallb f s = true -> forallb f (lstrip s) = true.
Proof.
  induction s as [|c s IH]; simpl; [done|].
  intros H. destruct (isspace c); [|done].
  apply andb_prop in H as [_ H]. auto.
Qed.

Lemma forallb_rev {A} (f : A -> bool) (l : list A) :
  forallb f (rev l) = forallb f l.
Proof.
  induction l as [|x l IH]; simpl; [done|].
  rewrite forallb_app, IH. simpl. rewrite andb_true_r. apply andb_comm.
Qed.

Lemma rstrip_forallb (f : char -> bool) (s : str) :
  forallb f s = true -> forallb f (rstrip s) = true.
Proof.
  intros H. unfold rstrip. rewrite forallb_rev. apply lstrip_forallb.
  by rewrite forallb_rev.
Qed.

Lemma strip_forallb (f : char -> bool) (s : str) :
  forallb f s = true -> forallb f (strip s) = true.
Proof. intros H. unfold strip. by apply lstrip_forallb, rstrip_forallb. Qed.

Lemma strip_blank (s : str) : forallb isspace s = true -> strip s = [].
Proof. intros H. unfold strip. by apply lstrip_blank, rstrip_forallb. Qed.

(** Cutting such a text at its commas leaves pieces of white space. *)
Lemma split_on_comma_blank n (s : str) :
  (length s <= n)%nat ->
  forallb comma_or_space s = true ->
  Forall (fun p => forallb isspace p = true) (split_on_fuel n [44] s).
Proof.
  revert s. induction n as [|n IH]; intros s Hlen Hs; simpl.
  - destruct s; [|simpl in Hlen; lia]. by repeat constructor.
  - destruct (partition [44] s) as [[a b]|] eqn:E.
    + apply partition_chr_Some in E as [-> Ha].
      apply forallb_app_inv in Hs as [Hsa Hsb]. simpl in Hsb.
      constructor; [by apply blank_of_no_comma|].
      apply IH; [|done]. rewrite length_app in Hlen. simpl in Hlen. lia.
    + apply partition_chr_None in E. repeat constructor.
      by apply blank_of_no_comma.
Qed.

Lemma filter_nonempty_blank (ps : list str) :
  Forall (fun p => forallb isspace p = true) ps ->
  List.filter nonempty (strip <$> ps) = [].
Proof.
  induction 1 as [|p ps Hp _ IH]; [done|].
  rewrite fmap_cons. simpl. by rewrite (strip_blank p Hp), IH.
Qed.

(** ** Parsing the model's answer *)

Lemma extract_headline_total result : is_Some (extract_headline result).
Proof.
  unfold extract_headline.
  destruct (contains HEADLINE result) eqn:Hh; simpl; [|by eexists].
  destruct (contains SUMMARY result); simpl; [|by eexists].
  destruct (split_on_lookup_1 HEADLINE result) as [a ->]; [done|done|]. simpl.
  destruct (split_on_lookup_0 SUMMARY a) as [b ->]. by eexists.
Qed.

Lemma extract_summary_total U result : is_Some (extract_summary U result).
Proof.
  unfold extract_summary.
  assert (Hclean : forall s : str, is_Some (
    summary ← (if contains TAGS s
               then b ← split_on TAGS s !! 0%nat; Some (strip b) else Some s);
    Some (re_sub U tags_word_re (re_sub U tags_colon_re summary)))).
  { intros s. destruct (contains TAGS s); simpl; [|by eexists].
    destruct (split_on_lookup_0 TAGS s) as [b ->]. by eexists. }
  destruct (contains SUMMARY result) eqn:Hs; [|apply Hclean].
  destruct (split_on_lookup_1 SUMMARY result) as [a ->]; [done|done|].
  destruct (contains TAG result); simpl; [|apply Hclean].
  destruct (split_on_lookup_0 TAG a) as [b ->]. apply Hclean.
Qed.

Lemma extract_tags_total result : is_Some (extract_tags result).
Proof.
  unfold extract_tags. destruct (contains TAGS result) eqn:Ht; [|by eexists].
  destruct (split_on_lookup_1 TAGS result) as [a ->]; [done|done|]. by eexists.
Qed.

(** Once [chain.run] has returned, the [try] body raises nothing: the
    result is made of the three extracted parts. *)
Lemma parse_response_parts U result :
  exists h s tg,
    extract_headline result = Some h
    /\ extract_summary U result = Some s
    /\ extract_tags result = Some tg
    /\ parse_response U result = Some {| headline := h; summary := s; tags := tg |}.
Proof.
  destruct (extract_headline_total result) as [h Hh].
  destruct (extract_summary_total U result) as [s Hs].
  destruct (extract_tags_total result) as [tg Htg].
  exists h, s, tg. unfold parse_response. by rewrite Hh, Hs, Htg.
Qed.

Lemma extract_tags_length result tg :
  extract_tags result = Some tg -> (length tg <= 3)%nat.
Proof.
  unfold extract_tags. destruct (contains TAGS result).
  - destruct (split_on TAGS result !! 1%nat); simpl; [|done].
    intros [= <-]. rewrite length_take. lia.
  - intros [= <-]. simpl. lia.
Qed.

Lemma extract_headline_absent result :
  contains HEADLINE result && contains SUMMARY result = false ->
  extract_headline result = Some headline_unavailable.
Proof. unfold extract_headline. by intros ->. Qed.

Lemma extract_summary_absent U result :
  contains SUMMARY result = false ->
  extract_summary U result = Some summary_unavailable.
Proof. unfold extract_summary. intros ->. reflexivity. Qed.

Lemma extract_tags_absent result :
  contains TAGS result = false -> extract_tags result = Some [general].
Proof. unfold extract_tags. by intros ->. Qed.

(** What the tool returns, by the outcome of the call. *)
Lemma summarize_article_tool_Returned U L title description content w result w' :
  chain_run L (truncated_text U title description content) w = (Returned result, w') ->
  exists h s tg,
    extract_headline result = Some h
    /\ extract_summary U result = Some s
    /\ extract_tags result = Some tg
    /\ (summarize_article_tool U L title description content w).1
       = {| headline := h; summary := s; tags := tg |}.
Proof.
  intros Hrun. unfold summarize_article_tool. rewrite Hrun.
  destruct (parse_response_parts U result) as (h & s & tg & Hh & Hs & Htg & ->).
  by exists h, s, tg.
Qed.

Lemma summarize_article_tool_Raised U L title description content w w' :
  chain_run L (truncated_text U title description content) w = (Raised, w') ->
  (summarize_article_tool U L title description content w).1 = fallback.
Proof. intros Hrun. unfold summarize_article_tool. by rewrite Hrun. Qed.

(** C5 as stated fails: an answer with the two markers and nothing between
    or after them gives an empty headline and an empty summary. *)
Lemma empty_headline_and_summary :
  let r := (summarize_article_tool ascii_tables
              (scripted (Returned (lit "Headline:Summary:")))
              (PStr []) (PStr []) (PStr []) tt).1 in
  headline r = [] /\ summary r = [].
Proof. by vm_compute. Qed.

(** C6, as amended. When the answer holds none of the three markers the
    tool returns the headline Headline unavailable, the summary Summary
    unavailable and the single tag General; the triple with the longer
    summary is what it returns when the call raises. *)
Theorem no_markers_gives_unavailable_triple
    (U : unicode) (L : backend) (title description content : pyval)
    (w w' : world L) :
  (forall result,
      chain_run L (truncated_text U title description content) w
      = (Returned result, w') ->
      contains HEADLINE result = false ->
      contains SUMMARY result = false ->
      contains TAGS result = false ->
      (summarize_article_tool U L title description content w).1
      = {| headline := headline_unavailable;
           summary := summary_unavailable;
           tags := [general] |})
  /\ (chain_run L (truncated_text U title description content) w = (Raised, w') ->
      (summarize_article_tool U L title description content w).1
      = {| headline := headline_unavailable;
           summary := summary_filtered;
           tags := [general] |}).
Proof.
  split.
  - intros result Hrun Hh Hs Ht.
    destruct (summarize_article_tool_Returned _ _ _ _ _ _ _ _ Hrun)
      as (h & s & tg & Eh & Es & Etg & ->).
    rewrite extract_headline_absent in Eh by (by rewrite Hh).
    rewrite (extract_summary_absent U _ Hs) in Es.
    rewrite (extract_tags_absent _ Ht) in Etg.
    by injection Eh as <-; injection Es as <-; injection Etg as <-.
  - apply summarize_article_tool_Raised.
Qed.

(** C6 as stated fails: the answer [hello] has none of the markers, and the
    summary returned is not the one of the fallback triple. *)
Lemma no_markers_is_not_the_fallback :
  let result := lit "hello" in
  contains HEADLINE result = false
  /\ contains SUMMARY result = false
  /\ contains TAGS result = false
  /\ (summarize_article_tool ascii_tables (scripted (Returned result))
        (PStr []) (PStr []) (PStr []) tt).1 <> fallback.
Proof. vm_compute. by repeat split. Qed.

Lemma extract_tags_commas result after :
  contains TAGS result = true ->
  split_on TAGS result !! 1%nat = Some after ->
  forallb comma_or_space after = true ->
  extract_tags result = Some [].
Proof.
  intros Ht Hafter Hblank. unfold extract_tags. rewrite Ht, Hafter. simpl.
  rewrite filter_nonempty_blank; [done|].
  apply split_on_comma_blank; [done|]. by apply strip_forallb.
Qed.

(** C10. When the answer holds the marker Tags: and the text after it is
    made of commas and white space only, the tags list is empty, not
    [General]; the answer [Tags: , ,] is one such. *)
Theorem comma_only_tags_give_empty_list :
  (forall (U : unicode) (L : backend) (title description content : pyval)
          (w w' : world L) (result after : str),
      chain_run L (truncated_text U title description content) w
      = (Returned result, w') ->
      contains TAGS result = true ->
      split_on TAGS result !! 1%nat = Some after ->
      forallb comma_or_space after = true ->
      tags (summarize_article_tool U L title description content w).1 = [])
  /\ (exists result,
        tags (summarize_article_tool ascii_tables (scripted (Returned result))
                (PStr []) (PStr []) (PStr []) tt).1 = []).
Proof.
  split.
  - intros U L title description content w w' result after Hrun Ht Hafter Hblank.
    destruct (summarize_article_tool_Returned _ _ _ _ _ _ _ _ Hrun)
      as (h & s & tg & _ & _ & Etg & ->). simpl.
    rewrite (extract_tags_commas _ _ Ht Hafter Hblank) in Etg. by injection Etg as <-.
  - exists (lit "Tags: , ,"). reflexivity.
Qed.

(** ** The truncation marker *)

(** C4. On content that ends with the marker as the news backend writes it,
    with the ellipsis U+2026, the marker's digits and the word chars stay in
    the returned text. *)
Theorem ellipsis_marker_left_in_output (U : unicode) :
  combine_and_trim_description U (PStr [])
    (PStr (lit "Sales rose" ++ [8230] ++ lit " [+120 chars]"))
  = lit "Sales rose 120 chars.".
Proof. reflexivity. Qed.

(** The pattern does delete the marker when it is spelled with the three
    code points of the source file. *)
Example misencoded_marker_is_stripped (U : unicode) :
  combine_and_trim_description U (PStr [])
    (PStr (lit "Sales rose" ++ [8218; 196; 182] ++ lit " [+120 chars]"))
  = lit "Sales rose.".
Proof. reflexivity. Qed.

(** The scenario of the specification: three ASCII dots are not the marker's
    first character either; the filter drops the brackets and the sentence
    cut drops what follows the last full stop. *)
Example scenario_three_dots (U : unicode) :
  combine_and_trim_description U (PStr (lit "EV sales rise"))
    (PStr (lit "... [+120 chars]"))
  = lit "EV sales rise ...".
Proof. reflexivity. Qed.

(** ** The theorems at concrete inputs *)

(** The scenario of the specification: both keywords of the topic are whole
    words of the article's text. *)
Example scenario_article_is_relevant :
  is_relevant ascii_tables scenario_article (lit "electric vehicles") = true.
Proof. reflexivity. Qed.

(** A keyword has to match a whole word: [vehicle] is not one of them. *)
Example scenario_article_partial_word :
  is_relevant ascii_tables scenario_article (lit "electric vehicle") = false.
Proof. reflexivity. Qed.

(** A [null] field is written into the text as the word None, which the
    lower-cased keyword [none] then matches. *)
Example null_field_reads_as_none :
  is_relevant ascii_tables null_description_article (lit "none") = true
  /\ is_relevant ascii_tables scenario_article (lit "none") = false.
Proof. split; reflexivity. Qed.

(** The well-formed answer of the specification parses into its fields. *)
Example scenario_answer_parses (U : unicode) :
  parse_response U (lit "Headline: EV Sales Soar" ++ [10]
                    ++ lit "Summary: Sales rose sharply." ++ [10]
                    ++ lit "Tags: EV, Sales, Growth")
  = Some {| headline := lit "EV Sales Soar";
            summary := lit "Sales rose sharply.";
            tags := [lit "EV"; lit "Sales"; lit "Growth"] |}.
Proof. reflexivity. Qed.

Lemma blank_topic_witness :
  forallb isspace [32; 9] = true
  /\ (forall article, is_relevant ascii_tables article [32; 9] = true)
  /\ (forall r,
        get_news ascii_tables r [32; 9]
        = take 5 (if status_ok r then fetched <$> default [] (articles r) else [])).
Proof.
  split; [reflexivity|].
  apply (blank_topic_keeps_every_article ascii_tables [32; 9]). reflexivity.
Defined.

Lemma summarize_node_pairs_witness :
  let arts := [scenario_article; second_article] in
  let summaries := [first_echoed_summary; second_echoed_summary] in
  (summarize_node ascii_tables day_of_date echoing arts 0).1 = Some summaries
  /\ arts !! 1%nat = Some second_article
  /\ length summaries = length arts
  /\ exists e,
       summaries !! 1%nat = Some e
       /\ s_result e
          = tool_answer ascii_tables
              (chain_run echoing (model_input ascii_tables second_article)
                 (world_after ascii_tables echoing (take 1 arts) 0)).1
       /\ s_source e = get second_article "source" (PStr [])
       /\ s_date e = shown_date day_of_date (get second_article "publishedAt" (PStr [])).
Proof.
  cbv zeta.
  assert (Hs : (summarize_node ascii_tables day_of_date echoing
                  [scenario_article; second_article] 0).1
               = Some [first_echoed_summary; second_echoed_summary])
    by (by vm_compute).
  split; [exact Hs|]. split; [reflexivity|].
  destruct (proj2 (summarize_node_pairs_by_index ascii_tables day_of_date echoing
                     [scenario_article; second_article] 0) _ Hs) as [Hlen Hidx].
  split; [exact Hlen|].
  exact (Hidx 1%nat second_article eq_refl).
Defined.

Lemma combine_and_trim_length_witness :
  let description := PStr (lit "Sales rose. More soon") in
  46 ∈ truncated_window ascii_tables description PNone
  /\ (length (combine_and_trim_description ascii_tables description PNone) <= 700)%nat
  /\ last (combine_and_trim_description ascii_tables description PNone) = Some 46.
Proof.
  assert (Hin : 46 ∈ truncated_window ascii_tables
                       (PStr (lit "Sales rose. More soon")) PNone).
  { apply (bool_decide_unpack _). vm_compute. exact I. }
  split; [exact Hin|].
  exact (proj2 (combine_and_trim_length_bound ascii_tables
                  (PStr (lit "Sales rose. More soon")) PNone) Hin).
Defined.

Lemma no_markers_witness :
  (summarize_article_tool ascii_tables (scripted (Returned (lit "hello")))
     (PStr []) (PStr []) (PStr []) tt).1
  = {| headline := headline_unavailable;
       summary := summary_unavailable;
       tags := [general] |}.
Proof.
  apply (proj1 (no_markers_gives_unavailable_triple ascii_tables
                  (scripted (Returned (lit "hello"))) (PStr []) (PStr []) (PStr [])
                  tt tt) (lit "hello")); reflexivity.
Defined.

Lemma comma_only_tags_witness :
  tags (summarize_article_tool ascii_tables (scripted (Returned (lit "Tags: , ,")))
          (PStr []) (PStr []) (PStr []) tt).1 = [].
Proof.
  apply (proj1 comma_only_tags_give_empty_list ascii_tables
           (scripted (Returned (lit "Tags: , ,"))) (PStr []) (PStr []) (PStr []) tt tt
           (lit "Tags: , ,") (lit " , ,")); reflexivity.
Defined.

(** * Further properties of the code *)

(** ** Keywords and word boundaries *)

Lemma wordp_head_app U (w post : str) c :
  head w = Some c -> wordp U (head (w ++ post)) = isword U c.
Proof. destruct w; [done|]. by intros [= ->]. Qed.

Lemma wordp_last_app U (pre w : str) c :
  last w = Some c -> wordp U (last (pre ++ w)) = isword U c.
Proof.
  intros Hl. apply last_Some in Hl as [w0 ->].
  by rewrite app_assoc, last_snoc.
Qed.

Lemma forallb_head {A} (f : A -> bool) (l : list A) :
  l <> [] -> forallb f l = true -> exists c, head l = Some c /\ f c = true.
Proof.
  destruct l as [|c l]; [done|]. simpl. intros _ [Hc _]%andb_prop. eauto.
Qed.

Lemma forallb_last {A} (f : A -> bool) (l : list A) :
  l <> [] -> forallb f l = true -> exists c, last l = Some c /\ f c = true.
Proof.
  intros Hne Hall. destruct (last l) as [c|] eqn:E.
  - exists c. split; [done|]. apply last_Some in E as [l0 ->].
    rewrite forallb_app in Hall. apply andb_prop in Hall as [_ Hc].
    simpl in Hc. by rewrite andb_true_r in Hc.
  - by apply last_None in E.
Qed.

(** X1. For a keyword made of word characters only, the search of
    [is_relevant] is the plain whole-word test: the keyword is found exactly
    when it occurs with no word character right before it and none right
    after it. *)
Theorem word_keyword_found_iff_delimited (U : unicode) (w text : str) :
  w <> [] ->
  forallb (isword U) w = true ->
  re_search U (word_pattern w) text = true
  <-> exists pre post,
        text = pre ++ w ++ post
        /\ wordp U (last pre) = false
        /\ wordp U (head post) = false.
Proof.
  intros Hne Hw. rewrite re_search_word.
  destruct (forallb_head _ _ Hne Hw) as (c1 & Hc1 & Hw1).
  destruct (forallb_last _ _ Hne Hw) as (c2 & Hc2 & Hw2).
  unfold occurs_as_whole_word, boundary_between.
  split; intros (pre & post & -> & H1 & H2); exists pre, post; split; try done.
  - rewrite (wordp_head_app U w post c1 Hc1), Hw1 in H1.
    rewrite (wordp_last_app U pre w c2 Hc2), Hw2 in H2.
    split; [by destruct (wordp U (last pre))|by destruct (wordp U (head post))].
  - rewrite (wordp_head_app U w post c1 Hc1), Hw1.
    rewrite (wordp_last_app U pre w c2 Hc2), Hw2.
    rewrite H1, H2. done.
Qed.

Lemma word_keyword_witness :
  re_search ascii_tables (word_pattern (lit "ev")) (lit "the ev market") = true.
Proof.
  apply (word_keyword_found_iff_delimited ascii_tables (lit "ev") (lit "the ev market"));
    [done|reflexivity|].
  exists (lit "the "), (lit " market"). by repeat split.
Defined.

(** X2. A keyword that ends with a non-word character, such as [c++], is
    found only where a word character follows it: at the end of the text, or
    before a blank, it is not found. *)
Theorem symbol_ended_keyword_needs_word_after (U : unicode) (w text : str) (x : char) :
  isword U x = false ->
  re_search U (word_pattern (w ++ [x])) text = true ->
  exists pre c post,
    text = pre ++ (w ++ [x]) ++ c :: post /\ isword U c = true.
Proof.
  intros Hx [pre [post (-> & _ & H2)]]%re_search_word.
  unfold boundary_between in H2.
  rewrite (wordp_last_app U pre (w ++ [x]) x), Hx in H2 by apply last_snoc.
  destruct post as [|c post]; [done|]. simpl in H2.
  exists pre, c, post. split; [done|]. by destruct (isword U c).
Qed.

Lemma symbol_ended_keyword_witness :
  exists pre c post,
    lit "c++11 is out" = pre ++ (lit "c+" ++ [43]) ++ c :: post
    /\ isword ascii_tables c = true.
Proof.
  apply (symbol_ended_keyword_needs_word_after ascii_tables (lit "c+")
           (lit "c++11 is out") 43); reflexivity.
Defined.

(** The article says [c++] but the topic [c++] does not find it. *)
Example cpp_at_end_not_found :
  is_relevant ascii_tables
    (<[ "title" := PStr (lit "I love c++") ]> ∅) (lit "c++") = false.
Proof. reflexivity. Qed.

(** ** What [get_news] returns *)

Lemma fetched_dom (a : raw_article) :
  dom (fetched a)
  = ({[ "title"; "description"; "content"; "source"; "publishedAt"; "url" ]}
     : gset string).
Proof.
  unfold fetched. rewrite !dom_insert_L, dom_empty_L. set_solver.
Qed.

Lemma get_news_elem U r topic (article : gmap string pyval) :
  article ∈ get_news U r topic ->
  exists raw,
    article = fetched raw
    /\ raw ∈ default [] (articles r)
    /\ is_relevant U (fields raw) topic = true.
Proof.
  unfold get_news. intros Hin. apply (subseteq_take 5) in Hin.
  destruct (status_ok r); [|by apply elem_of_nil in Hin].
  apply list_elem_of_fmap in Hin as (raw & -> & Hraw).
  apply list_elem_of_In, filter_In in Hraw as [Hraw Hrel].
  exists raw. split; [done|]. split; [by apply list_elem_of_In|done].
Qed.

(** X3. Every dict [get_news] returns has exactly the six keys title,
    description, content, source, publishedAt and url, whatever keys the
    backend's article had: a later [article['title']] or [article['url']]
    cannot raise [KeyError]. *)
Theorem get_news_articles_have_the_six_keys
    (U : unicode) (r : response) (topic : str) (article : gmap string pyval) :
  article ∈ get_news U r topic ->
  dom article
  = ({[ "title"; "description"; "content"; "source"; "publishedAt"; "url" ]}
     : gset string).
Proof.
  intros (raw & -> & _)%get_news_elem. apply fetched_dom.
Qed.

Lemma get_news_six_keys_witness :
  dom (fetched {| fields := scenario_article; source := Some ∅ |})
  = ({[ "title"; "description"; "content"; "source"; "publishedAt"; "url" ]}
     : gset string).
Proof.
  apply (get_news_articles_have_the_six_keys ascii_tables scenario_response
           (lit "electric vehicles")).
  replace (get_news ascii_tables scenario_response (lit "electric vehicles"))
    with [fetched {| fields := scenario_article; source := Some ∅ |}]
    by (by vm_compute).
  apply list_elem_of_here.
Defined.

(** X4. When the answer is ok and fewer than 5 articles come back, no
    relevant article of the answer was left out: the cap is the only reason
    a relevant article is dropped. *)
Theorem get_news_below_cap_is_complete
    (U : unicode) (r : response) (topic : str) (raw : raw_article) :
  status_ok r = true ->
  (length (get_news U r topic) < 5)%nat ->
  raw ∈ default [] (articles r) ->
  is_relevant U (fields raw) topic = true ->
  fetched raw ∈ get_news U r topic.
Proof.
  unfold get_news. intros -> Hlen Hraw Hrel.
  rewrite length_take in Hlen. rewrite take_ge by lia.
  apply list_elem_of_fmap. exists raw. split; [done|].
  apply list_elem_of_In, filter_In. split; [by apply list_elem_of_In|done].
Qed.

Lemma get_news_complete_witness :
  fetched {| fields := scenario_article; source := Some ∅ |}
  ∈ get_news ascii_tables scenario_response (lit "electric vehicles").
Proof.
  apply (get_news_below_cap_is_complete ascii_tables scenario_response
           (lit "electric vehicles"));
    [reflexivity|vm_compute; lia| |reflexivity].
  apply list_elem_of_here.
Defined.

(** X5. [get_news] keeps the order of the backend: the returned list is the
    image of a sublist of the answer's articles. *)
Theorem get_news_keeps_backend_order (U : unicode) (r : response) (topic : str) :
  exists kept,
    get_news U r topic = fetched <$> kept
    /\ sublist kept (default [] (articles r)).
Proof.
  unfold get_news. destruct (status_ok r).
  - exists (take 5 (List.filter (fun a => is_relevant U (fields a) topic)
                      (default [] (articles r)))).
    split; [by rewrite fmap_take|].
    etrans; [apply sublist_take|].
    induction (default [] (articles r)) as [|a l IH]; simpl; [done|].
    destruct (is_relevant U (fields a) topic);
      [by apply sublist_skip|by apply sublist_cons].
  - exists []. split; [done|apply sublist_nil_l].
Qed.

(** ** The text sent to the language model *)

Lemma forallb_filter_same {A} (f : A -> bool) (l : list A) :
  forallb f (List.filter f l) = true.
Proof.
  induction l as [|x l IH]; simpl; [done|].
  destruct (f x) eqn:E; simpl; [by rewrite E|done].
Qed.

Lemma forallb_take {A} (f : A -> bool) n (l : list A) :
  forallb f l = true -> forallb f (take n l) = true.
Proof.
  revert n. induction l as [|x l IH]; intros [|n]; simpl; try done.
  intros [-> H]%andb_prop. by apply IH.
Qed.

(** X6. The text handed to [chain.run] has at most 1500 characters, and each
    of them is a word character, white space or one of [. , ! ?]: whatever
    the article holds, no brace, quote or markup character reaches the
    prompt template. *)
Theorem truncated_text_is_short_and_clean
    (U : unicode) (title description content : pyval) :
  (length (truncated_text U title description content) <= 1500)%nat
  /\ forallb (fun c => isword U c || isspace c || kept_punct c)
             (truncated_text U title description content) = true.
Proof.
  unfold truncated_text. split; [rewrite length_take; lia|].
  apply forallb_take, strip_forallb. unfold clean.
  by rewrite !forallb_app, !forallb_filter_same.
Qed.

(** ** The tags *)

Lemma lstrip_head (s : str) c : head (lstrip s) = Some c -> isspace c = false.
Proof.
  induction s as [|d s IH]; simpl; [done|].
  destruct (isspace d) eqn:E; [done|]. simpl. by intros [= <-].
Qed.

Lemma lstrip_suffix (s : str) : exists a, s = a ++ lstrip s.
Proof.
  induction s as [|d s [a IH]]; simpl; [by exists []|].
  destruct (isspace d); [|by exists []]. exists (d :: a). simpl. by f_equal.
Qed.

Lemma rstrip_prefix (s : str) : exists b, s = rstrip s ++ b.
Proof.
  unfold rstrip. destruct (lstrip_suffix (rev s)) as [a Ha].
  exists (rev a). rewrite <- rev_app_distr, <- Ha. by rewrite rev_involutive.
Qed.

Lemma last_rev_head {A} (l : list A) : last (rev l) = head l.
Proof. destruct l as [|x l]; [done|]. simpl. apply last_snoc. Qed.

Lemma rstrip_last_not_space (s : str) c :
  last (rstrip s) = Some c -> isspace c = false.
Proof.
  unfold rstrip. rewrite last_rev_head. apply lstrip_head.
Qed.

Lemma last_suffix {A} (a l : list A) c :
  l <> [] -> last (a ++ l) = Some c -> last l = Some c.
Proof.
  intros Hne. destruct (last l) as [d|] eqn:E.
  - apply last_Some in E as [l0 ->]. by rewrite app_assoc, last_snoc.
  - by apply last_None in E.
Qed.

(** A stripped string neither starts nor ends with white space. *)
Lemma strip_head (s : str) c : head (strip s) = Some c -> isspace c = false.
Proof. apply lstrip_head. Qed.

Lemma strip_last_not_space (s : str) c :
  last (strip s) = Some c -> isspace c = false.
Proof.
  unfold strip. intros Hl. destruct (lstrip_suffix (rstrip s)) as [a Ha].
  apply (rstrip_last_not_space s c). rewrite Ha.
  destruct (lstrip (rstrip s)) as [|d t] eqn:E; [done|].
  rewrite last_app, Hl. done.
Qed.

Lemma not_elem_of_lstrip (x : char) (s : str) : x ∉ s -> x ∉ lstrip s.
Proof.
  intros Hx Hin. apply Hx. destruct (lstrip_suffix s) as [a Ha].
  rewrite Ha. apply elem_of_app. by right.
Qed.

Lemma not_elem_of_strip (x : char) (s : str) : x ∉ s -> x ∉ strip s.
Proof.
  intros Hx. unfold strip. apply not_elem_of_lstrip.
  intros Hin. apply Hx. destruct (rstrip_prefix s) as [b Hb].
  rewrite Hb. apply elem_of_app. by left.
Qed.

(** Cutting at commas leaves pieces without comma. *)
Lemma split_on_comma_pieces n (s : str) :
  (length s <= n)%nat ->
  Forall (fun p => 44 ∉ p) (split_on_fuel n [44] s).
Proof.
  revert s. induction n as [|n IH]; intros s Hlen; simpl.
  - destruct s; [|simpl in Hlen; lia]. repeat constructor. apply not_elem_of_nil.
  - destruct (partition [44] s) as [[a b]|] eqn:E.
    + apply partition_chr_Some in E as [-> Ha]. constructor; [done|].
      apply IH. rewrite length_app in Hlen. simpl in Hlen. lia.
    + apply partition_chr_None in E. by repeat constructor.
Qed.

Lemma extract_tags_well_formed result tg :
  extract_tags result = Some tg -> Forall well_formed_tag tg.
Proof.
  unfold extract_tags. destruct (contains TAGS result).
  - destruct (split_on TAGS result !! 1%nat) as [after|]; simpl; [|done].
    intros [= <-]. apply Forall_take, Forall_forall. intros tag Hin.
    apply list_elem_of_In, filter_In in Hin as [Hin Hne].
    apply list_elem_of_In, list_elem_of_fmap in Hin as (piece & -> & Hpiece).
    pose proof (split_on_comma_pieces (length (strip after)) (strip after)
                  (le_n _)) as Hpieces.
    rewrite Forall_forall in Hpieces. specialize (Hpieces piece Hpiece).
    split; [by destruct (strip piece)|].
    split; [by apply not_elem_of_strip|].
    split; [apply strip_head|apply strip_last_not_space].
  - intros [= <-]. repeat constructor; try done.
    + apply (bool_decide_unpack _). by vm_compute.
    + by intros c [= <-].
    + by intros c [= <-].
Qed.

(** X7. Every tag the tool returns, for any outcome of the model call, is
    a non-empty string without comma and without white space at its ends. *)
Theorem summarize_tags_are_well_formed
    (U : unicode) (L : backend) (title description content : pyval) (w : world L) :
  Forall well_formed_tag
         (tags (summarize_article_tool U L title description content w).1).
Proof.
  destruct (chain_run L (truncated_text U title description content) w)
    as [[result|] w'] eqn:Hrun.
  - destruct (summarize_article_tool_Returned _ _ _ _ _ _ _ _ Hrun)
      as (h & s & tg & _ & _ & Htg & ->).
    by apply (extract_tags_well_formed result).
  - rewrite (summarize_article_tool_Raised _ _ _ _ _ _ _ Hrun).
    apply (extract_tags_well_formed []). reflexivity.
Qed.

(** ** The trimmed description, again *)

Lemma lstrip_chr_forallb (f : char -> bool) x (s : str) :
  forallb f s = true -> forallb f (lstrip_chr x s) = true.
Proof.
  induction s as [|c s IH]; simpl; [done|].
  intros H. destruct (c =? x); [|done].
  apply andb_prop in H as [_ H]. auto.
Qed.

Lemma rstrip_chr_forallb (f : char -> bool) x (s : str) :
  forallb f s = true -> forallb f (rstrip_chr x s) = true.
Proof.
  intros H. unfold rstrip_chr. rewrite forallb_rev. apply lstrip_chr_forallb.
  by rewrite forallb_rev.
Qed.

Lemma truncated_window_chars U d c :
  forallb (fun c => is_ascii_alnum c || isspace c || kept_punct c)
          (truncated_window U d c) = true.
Proof. unfold truncated_window. apply forallb_take, forallb_filter_same. Qed.

Lemma rfind_elem x (s : str) i : rfind x s = Some i -> x ∈ s.
Proof.
  revert i. induction s as [|c s IH]; intros i; simpl; [done|].
  destruct (rfind x s) as [j|].
  - intros _. apply elem_of_cons. right. by apply (IH j).
  - destruct (N.eqb_spec c x) as [->|]; [|done]. intros _. apply list_elem_of_here.
Qed.

Lemma rfind_lookup x (s : str) i : rfind x s = Some i -> s !! i = Some x.
Proof.
  revert i. induction s as [|c s IH]; intros i; simpl; [done|].
  destruct (rfind x s) as [j|].
  - intros [= <-]. by apply IH.
  - destruct (N.eqb_spec c x) as [->|]; [|done]. by intros [= <-].
Qed.

(** Each step after the filter keeps the filtered alphabet. *)
Lemma trimmed_chars (f : char -> bool) (window : str) :
  f 46 = true ->
  forallb f window = true ->
  forallb f (strip match rfind 46 window with
                   | Some i => take (i + 1) window
                   | None => rstrip_chr 46 window ++ [46]
                   end) = true.
Proof.
  intros Hdot Hw. apply strip_forallb. destruct (rfind 46 window).
  - by apply forallb_take.
  - rewrite forallb_app, rstrip_chr_forallb by done. simpl. by rewrite Hdot.
Qed.

(** X8. The returned description is made of ASCII letters, digits, white
    space and [. , ! ?] only: no bracket, quote or markup character of the
    article survives in it. *)
Theorem combine_and_trim_output_chars (U : unicode) (description content : pyval) :
  forallb (fun c => is_ascii_alnum c || isspace c || kept_punct c)
          (combine_and_trim_description U description content) = true.
Proof. apply trimmed_chars; [done|apply truncated_window_chars]. Qed.

Lemma rfind_is_last x (s : str) i j :
  rfind x s = Some i -> s !! j = Some x -> (j <= i)%nat.
Proof.
  revert i j. induction s as [|c s IH]; intros i j; simpl; [done|].
  destruct (rfind x s) as [k|] eqn:E.
  - intros [= <-]. destruct j as [|j]; [lia|]. simpl. intros Hj.
    specialize (IH k j eq_refl Hj). lia.
  - destruct (N.eqb_spec c x) as [->|]; [|done]. intros [= <-].
    destruct j as [|j]; [lia|]. simpl. intros Hj.
    apply rfind_None in E. exfalso. apply E. by eapply list_elem_of_lookup_2.
Qed.

(** X10. When the filtered text has a full stop among its first 700
    characters, the description is that text cut right after the last such
    full stop, with the white space at its start removed: the sentence that
    the cut at 700 broke is dropped whole. *)
Theorem combine_and_trim_cuts_at_last_full_stop
    (U : unicode) (description content : pyval) :
  46 ∈ truncated_window U description content ->
  exists i,
    combine_and_trim_description U description content
    = lstrip (take (i + 1) (truncated_window U description content))
    /\ truncated_window U description content !! i = Some 46
    /\ forall j, truncated_window U description content !! j = Some 46 -> (j <= i)%nat.
Proof.
  intros Hin. unfold combine_and_trim_description.
  destruct (rfind 46 (truncated_window U description content)) as [i|] eqn:E;
    [|by apply rfind_None in E].
  exists i. pose proof (rfind_Some _ _ _ E) as Hlast.
  split; [|split].
  - unfold strip. by rewrite (rstrip_last _ 46 Hlast).
  - by apply rfind_lookup.
  - intros j Hj. by apply (rfind_is_last 46 _ i j E).
Qed.

Lemma combine_and_trim_cut_witness :
  exists i,
    combine_and_trim_description ascii_tables
      (PStr (lit "Sales rose. More soon. And th")) PNone
    = lstrip (take (i + 1)
                (truncated_window ascii_tables
                   (PStr (lit "Sales rose. More soon. And th")) PNone))
    /\ truncated_window ascii_tables
         (PStr (lit "Sales rose. More soon. And th")) PNone !! i = Some 46
    /\ forall j,
         truncated_window ascii_tables
           (PStr (lit "Sales rose. More soon. And th")) PNone !! j = Some 46 ->
         (j <= i)%nat.
Proof.
  apply (combine_and_trim_cuts_at_last_full_stop ascii_tables
           (PStr (lit "Sales rose. More soon. And th")) PNone).
  apply (list_elem_of_lookup_2 _ 10%nat). reflexivity.
Defined.

Lemma lstrip_id (s : str) :
  (forall c, head s = Some c -> isspace c = false) -> lstrip s = s.
Proof.
  destruct s as [|c s]; [done|]. simpl. intros H. by rewrite (H c eq_refl).
Qed.

Lemma rstrip_id (s : str) :
  (forall c, last s = Some c -> isspace c = false) -> rstrip s = s.
Proof.
  intros H. destruct (last s) as [x|] eqn:E.
  - by apply (rstrip_last s x), H.
  - by apply last_None in E as ->.
Qed.

(** [strip] is idempotent. *)
Lemma strip_strip (s : str) : strip (strip s) = strip s.
Proof.
  unfold strip at 1.
  rewrite (rstrip_id (strip s)) by apply strip_last_not_space.
  apply lstrip_id, strip_head.
Qed.

Lemma rstrip_snoc_space (s : str) : rstrip (s ++ [32]) = rstrip s.
Proof. unfold rstrip. by rewrite rev_app_distr. Qed.

Lemma filter_id {A} (f : A -> bool) (l : list A) :
  forallb f l = true -> List.filter f l = l.
Proof.
  induction l as [|x l IH]; simpl; [done|].
  intros [-> H]%andb_prop. by rewrite IH.
Qed.

Lemma rfind_snoc x (y : str) : rfind x (y ++ [x]) = Some (length y).
Proof.
  induction y as [|c y IH]; simpl; [by rewrite N.eqb_refl|]. by rewrite IH.
Qed.

Lemma rfind_not_elem x (s : str) : x ∉ s -> rfind x s = None.
Proof.
  induction s as [|c s IH]; [done|]. intros Hx.
  apply not_elem_of_cons in Hx as [Hne Hx]. simpl. rewrite (IH Hx).
  destruct (N.eqb_spec c x); [congruence|done].
Qed.

Lemma rstrip_chr_id x (s : str) : x ∉ s -> rstrip_chr x s = s.
Proof.
  intros Hx. unfold rstrip_chr.
  destruct (rev s) as [|c t] eqn:E.
  - simpl. rewrite <- (rev_involutive s), E. done.
  - simpl. destruct (N.eqb_spec c x) as [->|_].
    + exfalso. apply Hx, list_elem_of_In, in_rev. rewrite E. by left.
    + by rewrite <- E, rev_involutive.
Qed.

(** A text that is already in the shape [combine_and_trim_description]
    produces is returned as it is. *)
Lemma combine_and_trim_fixed U (y : str) :
  forallb (fun c => is_ascii_alnum c || isspace c || kept_punct c) (y ++ [46]) = true ->
  strip (y ++ [46]) = y ++ [46] ->
  (length (y ++ [46%N]) <= 700)%nat \/ ((46 ∉ y) /\ (length y <= 700)%nat) ->
  combine_and_trim_description U (PStr (y ++ [46])) (PStr []) = y ++ [46].
Proof.
  intros Hchars Hstrip Hlen.
  unfold combine_and_trim_description, truncated_window. simpl or_empty.
  change (re_sub U (marker_re U) []) with (@nil N).
  change (strip []) with (@nil N). rewrite Hstrip.
  change ((y ++ [46]) ++ [32] ++ []) with ((y ++ [46]) ++ [32]).
  assert (strip ((y ++ [46]) ++ [32]) = y ++ [46]) as ->.
  { unfold strip. rewrite rstrip_snoc_space. exact Hstrip. }
  rewrite (filter_id _ _ Hchars).
  destruct (decide (length (y ++ [46%N]) <= 700)%nat) as [Hle|Hgt].
  - rewrite take_ge by done. rewrite rfind_snoc.
    rewrite take_ge by (rewrite length_app; simpl; lia). done.
  - destruct Hlen as [Hle|[Hy Hle]]; [done|].
    rewrite length_app in Hgt. simpl in Hgt.
    rewrite take_app_le, take_ge by lia.
    by rewrite (rfind_not_elem 46 y Hy), (rstrip_chr_id 46 y Hy).
Qed.

Lemma combine_and_trim_shape U d c :
  exists y,
    combine_and_trim_description U d c = y ++ [46]
    /\ ((length (y ++ [46%N]) <= 700)%nat \/ ((46 ∉ y) /\ (length y <= 700)%nat)).
Proof.
  pose proof (combine_and_trim_ends_with_dot U d c) as Hdot.
  apply last_Some in Hdot as [y Hy]. exists y. split; [done|].
  pose proof (truncated_window_length U d c) as Hw.
  unfold combine_and_trim_description in Hy.
  destruct (rfind 46 (truncated_window U d c)) as [i|] eqn:E.
  - left. rewrite <- Hy. etrans; [apply strip_length|].
    rewrite length_take. lia.
  - right. apply rfind_None in E.
    rewrite (rstrip_chr_id 46 _ E) in Hy. unfold strip in Hy.
    rewrite (rstrip_last _ 46) in Hy by (done || apply last_snoc).
    destruct (lstrip_suffix (truncated_window U d c ++ [46])) as [a Ha].
    rewrite Hy, app_assoc in Ha. apply app_inj_tail in Ha as [Ha _].
    split.
    + intros Hin. apply E. rewrite Ha. apply elem_of_app. by right.
    + rewrite Ha, length_app in Hw. lia.
Qed.

(** X9. Trimming is idempotent: the returned description, trimmed again
    with no content, comes back unchanged. *)
Theorem combine_and_trim_idempotent (U : unicode) (description content : pyval) :
  combine_and_trim_description U
    (PStr (combine_and_trim_description U description content)) (PStr [])
  = combine_and_trim_description U description content.
Proof.
  destruct (combine_and_trim_shape U description content) as (y & Hy & Hlen).
  assert (Hchars :
    forallb (fun c => is_ascii_alnum c || isspace c || kept_punct c)
            (combine_and_trim_description U description content) = true).
  { apply trimmed_chars; [done|apply truncated_window_chars]. }
  assert (Hstrip : strip (combine_and_trim_description U description content)
                   = combine_and_trim_description U description content).
  { unfold combine_and_trim_description. apply strip_strip. }
  rewrite Hy in *. by apply combine_and_trim_fixed.
Qed.

(** ** The calls [summarize_node] makes *)

(** X11. The summarize stage calls the model once per article, in the
    order of the list, each time with that article's cleaned and truncated
    text, and whatever the calls return or raise, up to the first article
    with a [null] title, description or content: there the tool wrapper
    raises, the model is called neither for that article nor for a later
    one, and the stage raises.  The state the backend is left in is the one
    these calls produce, one after the other.  The stage returns exactly
    when the calls cover the whole list, which is then once per article. *)
Theorem summarize_node_calls_once_per_valid_article
    (U : unicode) (D : datelib) (L : backend)
    (arts : list (gmap string pyval)) (w : world L) :
  (summarize_node U D L arts w).2
  = foldl (fun w' article => (chain_run L (model_input U article) w').2)
          w (called_articles arts)
  /\ (is_Some (summarize_node U D L arts w).1 <-> called_articles arts = arts)
  /\ (forall article, article ∈ called_articles arts ->
        exists t d c,
          get article "title" (PStr []) = PStr t
          /\ get article "description" (PStr []) = PStr d
          /\ get article "content" (PStr []) = PStr c
          /\ model_input U article = article_text U t d c)
  /\ (forall article,
        arts !! length (called_articles arts) = Some article ->
        get article "title" (PStr []) = PNone
        \/ get article "description" (PStr []) = PNone
        \/ get article "content" (PStr []) = PNone).
Proof.
  split; [apply summarize_node_world|].
  split; [by rewrite summarize_node_is_Some, called_articles_all|].
  split.
  - induction arts as [|a rest IH]; intros article; cbn [called_articles].
    + by intros ?%not_elem_of_nil.
    + destruct (valid_for_tool a) eqn:Hv; [|by intros ?%not_elem_of_nil].
      intros [Heq | Hin]%elem_of_cons; [subst article|by apply IH].
      unfold valid_for_tool in Hv. unfold model_input.
      destruct (get a "title" (PStr [])) as [|t]; [done|].
      destruct (get a "description" (PStr [])) as [|d]; [done|].
      destruct (get a "content" (PStr [])) as [|c]; [done|].
      by exists t, d, c.
  - induction arts as [|a rest IH]; intros article; cbn [called_articles].
    + by rewrite lookup_nil.
    + destruct (valid_for_tool a) eqn:Hv; [by apply IH|].
      cbn. intros H. apply (inj Some) in H. subst a.
      unfold valid_for_tool in Hv.
      destruct (get article "title" (PStr [])); [by left|].
      destruct (get article "description" (PStr [])); [by right; left|].
      destruct (get article "content" (PStr [])); [by right; right|done].
Qed.

(** ** The report *)

Lemma clean_text_latin1 nfkd (text : str) :
  forallb (fun c => c <? 256) (clean_text nfkd text) = true.
Proof. apply forallb_filter_same. Qed.

Lemma clean_text_val_latin1 nfkd v (txt : str) :
  clean_text_val nfkd v = Some txt -> forallb (fun c => c <? 256) txt = true.
Proof. destruct v; [done|]. intros [= <-]. apply clean_text_latin1. Qed.

Lemma digits_of_uint_latin1 (u : Decimal.uint) :
  forallb (fun c => c <? 256) (digits_of_uint u) = true.
Proof. induction u; simpl; auto. Qed.

Lemma add_article_is_Some U nfkd n article s idx :
  is_Some (add_article U nfkd n article s idx) <-> renderable article = true.
Proof.
  unfold add_article, renderable.
  destruct (article !! "title") as [[|t]|]; simpl;
    try (split; [by intros [? ?]|done]).
  destruct (article !! "source") as [src|]; simpl;
    try (split; [by intros [? ?]|done]).
  destruct (article !! "url") as [[|u]|]; simpl;
    split; (by intros [? ?]) || done.
Qed.

Lemma add_articles_is_Some U nfkd n idx pairs :
  is_Some (add_articles U nfkd n idx pairs)
  <-> Forall (fun p => renderable p.1 = true) pairs.
Proof.
  revert idx. induction pairs as [|[a s] rest IH]; intros idx; simpl.
  - split; [constructor|by eexists].
  - rewrite Forall_cons, <- (IH (S idx)), <- (add_article_is_Some U nfkd n a s idx).
    destruct (add_article U nfkd n a s idx) as [sec|]; simpl.
    + destruct (add_articles U nfkd n (S idx) rest) as [more|]; simpl.
      * split; [intros _; split; by eexists|by eexists].
      * split; [by intros [? ?]|by intros [_ [? ?]]].
    + split; [by intros [? ?]|by intros [[? ?] _]].
Qed.

(** X12. [generate_pdf] raises exactly when one of the articles it pairs
    with a summary lacks a title or a url that is a string, or has no source
    entry: a [null] title or url from the backend makes the whole report
    fail, while a [null] description, content, source or date does not. *)
Theorem generate_pdf_succeeds_iff_renderable
    (U : unicode) (nfkd : str -> str)
    (arts : list (gmap string pyval)) (sums : list summary_entry) (topic : str) :
  is_Some (generate_pdf U nfkd arts sums topic)
  <-> Forall (fun p => renderable p.1 = true) (zip arts sums).
Proof.
  rewrite <- (add_articles_is_Some U nfkd (length arts) 1).
  unfold generate_pdf.
  destruct (add_articles U nfkd (length arts) 1 (zip arts sums)); simpl.
  - split; by eexists.
  - split; by intros [? ?].
Qed.

Lemma add_article_hlines U nfkd n article s idx calls :
  add_article U nfkd n article s idx = Some calls ->
  length (List.filter is_hline calls) = if (idx <? n)%nat then 1%nat else 0%nat.
Proof.
  unfold add_article.
  destruct (article !! "title" ≫= clean_text_val nfkd) as [t|]; simpl; [|done].
  destruct (article !! "source") as [src|]; simpl; [|done].
  destruct (article !! "url" ≫= clean_text_val nfkd) as [u|]; simpl; [|done].
  intros [= <-]. by destruct (idx <? n)%nat.
Qed.

Lemma add_articles_hlines U nfkd n idx pairs calls :
  add_articles U nfkd n idx pairs = Some calls ->
  length (List.filter is_hline calls) = Nat.min (length pairs) (n - idx).
Proof.
  revert idx calls. induction pairs as [|[a s] rest IH]; intros idx calls H.
  - by injection H as <-.
  - cbn [add_articles] in H.
    destruct (add_article U nfkd n a s idx) as [sec|] eqn:Hsec; simpl in H; [|done].
    destruct (add_articles U nfkd n (S idx) rest) as [more|] eqn:Hmore;
      simpl in H; [|done].
    injection H as <-. rewrite List.filter_app, length_app.
    rewrite (add_article_hlines _ _ _ _ _ _ _ Hsec), (IH _ _ Hmore).
    cbn [length]. destruct (Nat.ltb_spec idx n); lia.
Qed.

(** X13. A report that is produced has one divider line after each section
    whose number is below [len(articles)]: with as many summaries as
    articles that is one between consecutive sections and none after the
    last; with fewer summaries than articles every section drawn is
    followed by one. *)
Theorem generate_pdf_dividers
    (U : unicode) (nfkd : str -> str)
    (arts : list (gmap string pyval)) (sums : list summary_entry) (topic : str)
    (calls : list pdf_call) :
  generate_pdf U nfkd arts sums topic = Some calls ->
  length (List.filter is_hline calls)
  = Nat.min (length sums) (length arts - 1).
Proof.
  unfold generate_pdf.
  destruct (add_articles U nfkd (length arts) 1 (zip arts sums)) as [secs|] eqn:E;
    [|done].
  cbn [mbind option_bind]. intros [= <-].
  cbn [app List.filter is_hline].
  rewrite (add_articles_hlines _ _ _ _ _ _ E), length_zip. lia.
Qed.

Lemma texts_of_app (l1 l2 : list pdf_call) :
  texts_of (l1 ++ l2) = texts_of l1 ++ texts_of l2.
Proof. apply omap_app. Qed.

Lemma add_article_latin1 U nfkd n article s idx calls :
  add_article U nfkd n article s idx = Some calls ->
  forallb (forallb (fun c => c <? 256)) (texts_of calls) = true.
Proof.
  unfold add_article.
  destruct (article !! "title" ≫= clean_text_val nfkd) as [t|] eqn:Ht; [|done].
  cbn [mbind option_bind].
  destruct (article !! "source") as [src|]; [|done].
  cbn [mbind option_bind].
  destruct (article !! "url" ≫= clean_text_val nfkd) as [u|] eqn:Hu; [|done].
  cbn [mbind option_bind].
  assert (forallb (fun c => c <? 256) t = true) as Ht'.
  { destruct (article !! "title"); [|done]. by eapply clean_text_val_latin1. }
  assert (forallb (fun c => c <? 256) u = true) as Hu'.
  { destruct (article !! "url"); [|done]. by eapply clean_text_val_latin1. }
  intros H. apply (inj Some) in H. subst calls.
  rewrite texts_of_app, forallb_app.
  apply andb_true_intro. split.
  - cbn [texts_of omap list_omap text_of forallb].
    by rewrite !clean_text_latin1, Ht', Hu'.
  - by destruct (idx <? n)%nat.
Qed.

Lemma add_articles_latin1 U nfkd n idx pairs calls :
  add_articles U nfkd n idx pairs = Some calls ->
  forallb (forallb (fun c => c <? 256)) (texts_of calls) = true.
Proof.
  revert idx calls. induction pairs as [|[a s] rest IH]; intros idx calls; simpl.
  - by intros [= <-].
  - destruct (add_article U nfkd n a s idx) as [sec|] eqn:Hsec; simpl; [|done].
    destruct (add_articles U nfkd n (S idx) rest) as [more|] eqn:Hmore; simpl; [|done].
    intros [= <-]. rewrite texts_of_app, forallb_app.
    by rewrite (add_article_latin1 _ _ _ _ _ _ _ Hsec), (IH _ _ Hmore).
Qed.

(** X14. Every text the program hands to the PDF library, in the header,
    the footer and the body of a report, is made of code points below 256,
    which the library's Latin-1 encoding accepts. *)
Theorem pdf_texts_are_latin1
    (U : unicode) (nfkd : str -> str)
    (arts : list (gmap string pyval)) (sums : list summary_entry)
    (topic now : str) (page_no : nat) :
  forallb (forallb (fun c => c <? 256)) (texts_of (header nfkd topic now)) = true
  /\ forallb (forallb (fun c => c <? 256)) (texts_of (footer page_no)) = true
  /\ forall calls,
       generate_pdf U nfkd arts sums topic = Some calls ->
       forallb (forallb (fun c => c <? 256)) (texts_of calls) = true.
Proof.
  split; [|split].
  - cbn [header texts_of omap list_omap text_of forallb].
    by rewrite !clean_text_latin1.
  - cbn [footer texts_of omap list_omap text_of forallb].
    unfold py_str_nat. rewrite forallb_app, digits_of_uint_latin1. done.
  - intros calls. unfold generate_pdf.
    destruct (add_articles U nfkd (length arts) 1 (zip arts sums)) as [secs|] eqn:E;
      [|done].
    cbn [mbind option_bind]. intros H. apply (inj Some) in H. subst calls.
    rewrite texts_of_app, forallb_app.
    rewrite (add_articles_latin1 _ _ _ _ _ _ E).
    cbn [texts_of omap list_omap text_of forallb].
    by rewrite clean_text_latin1.
Qed.

(** ** The pipeline as a whole *)

Lemma invoke_unfold U D L nfkd news topic w :
  invoke U D L nfkd news (input_state topic) w
  = (summaries ← (summarize_node U D L (get_news U (news topic) topic) w).1;
     generate_pdf_node U nfkd
       {| state_topic := topic;
          state_articles := get_news U (news topic) topic;
          state_summaries := summaries;
          state_pdf_path := [];
          state_pdf_bytes := [] |},
     (summarize_node U D L (get_news U (news topic) topic) w).2).
Proof.
  unfold invoke, summarize_news, get_news_node, input_state.
  cbn [state_topic state_articles state_pdf_path state_pdf_bytes].
  by destruct (summarize_node U D L (get_news U (news topic) topic) w) as [[sums|] w'].
Qed.

Lemma generate_pdf_node_Some U nfkd state final :
  generate_pdf_node U nfkd state = Some final ->
  state_topic final = state_topic state
  /\ state_articles final = state_articles state
  /\ state_summaries final = state_summaries state
  /\ generate_pdf U nfkd (state_articles state) (state_summaries state)
       (state_topic state) = Some (state_pdf_bytes final).
Proof.
  unfold generate_pdf_node.
  destruct (generate_pdf U nfkd (state_articles state) (state_summaries state)
              (state_topic state)) as [calls|]; [|done].
  cbn [mbind option_bind]. intros H. apply (inj Some) in H. by subst final.
Qed.

(** X15. A run that returns leaves the topic as it was, holds the articles
    [get_news] selected, at most 5, with exactly one summary per article,
    and a report with one divider between consecutive sections and none
    after the last. *)
Theorem invoke_result_invariants
    (U : unicode) (D : datelib) (L : backend) (nfkd : str -> str)
    (news : str -> response) (topic : str) (w : world L) (final : NewsState) :
  (invoke U D L nfkd news (input_state topic) w).1 = Some final ->
  state_topic final = topic
  /\ state_articles final = get_news U (news topic) topic
  /\ length (state_summaries final) = length (state_articles final)
  /\ (length (state_articles final) <= 5)%nat
  /\ length (List.filter is_hline (state_pdf_bytes final))
     = (length (state_articles final) - 1)%nat.
Proof.
  rewrite invoke_unfold. cbn [fst].
  destruct (summarize_node U D L (get_news U (news topic) topic) w).1
    as [sums|] eqn:Hsums; [|done]. cbn [mbind option_bind].
  intros (Ht & Ha & Hs & Hpdf)%generate_pdf_node_Some. cbn in Ht, Ha, Hs, Hpdf.
  assert (Hlen : length (state_summaries final) = length (state_articles final)).
  { rewrite Hs, Ha. by apply summarize_node_Some in Hsums as [-> _]. }
  split; [done|]. split; [done|]. split; [done|]. split.
  - rewrite Ha. unfold get_news. rewrite length_take. lia.
  - rewrite <- Hs, <- Ha in Hpdf.
    pose proof (add_articles_hlines U nfkd (length (state_articles final)) 1
                  (zip (state_articles final) (state_summaries final))) as Hh.
    unfold generate_pdf in Hpdf.
    destruct (add_articles U nfkd (length (state_articles final)) 1
                (zip (state_articles final) (state_summaries final)))
      as [secs|]; [|done].
    cbn [mbind option_bind] in Hpdf. apply (inj Some) in Hpdf. rewrite <- Hpdf.
    cbn [app List.filter is_hline].
    rewrite (Hh secs eq_refl), length_zip. lia.
Qed.

Lemma Forall_zip_fst {A B} (P : A -> Prop) (l : list A) (k : list B) :
  length l = length k ->
  Forall (fun p => P p.1) (zip l k) <-> Forall P l.
Proof.
  revert k. induction l as [|x l IH]; intros [|y k] Hlen; simpl in *; try done.
  rewrite !Forall_cons, IH by lia. done.
Qed.

Lemma renderable_fetched (raw : raw_article) :
  renderable (fetched raw) = false
  <-> fetched raw !! "title" = Some PNone \/ fetched raw !! "url" = Some PNone.
Proof.
  unfold renderable, fetched. simplify_map_eq.
  destruct (get (fields raw) "title" (PStr [])),
           (get (fields raw) "url" (PStr [])); intuition congruence.
Qed.

Lemma valid_for_tool_fetched (raw : raw_article) :
  valid_for_tool (fetched raw) = false
  <-> fetched raw !! "title" = Some PNone
      \/ fetched raw !! "description" = Some PNone
      \/ fetched raw !! "content" = Some PNone.
Proof.
  assert (Hget : forall k, is_Some (fetched raw !! k) ->
            fetched raw !! k = Some (get (fetched raw) k (PStr []))).
  { intros k [v Hv]. unfold get. by rewrite Hv. }
  rewrite (Hget "title"), (Hget "description"), (Hget "content")
    by (unfold fetched; simplify_map_eq; by eexists).
  unfold valid_for_tool.
  destruct (get (fetched raw) "title" (PStr [])),
           (get (fetched raw) "description" (PStr [])),
           (get (fetched raw) "content" (PStr [])); cbn; intuition congruence.
Qed.

(** X16. A run raises exactly when one of the articles [get_news] selected
    has a [null] title, description, content or url in the backend's
    answer: on a [null] title, description or content the summarize stage
    raises, on a [null] title or url the report does.  The model has by
    then been called, once each and in order, for the selected articles
    before the first one with a [null] title, description or content, and
    for all of them when there is none. *)
Theorem invoke_raises_iff_null_field
    (U : unicode) (D : datelib) (L : backend) (nfkd : str -> str)
    (news : str -> response) (topic : str) (w : world L) :
  ((invoke U D L nfkd news (input_state topic) w).1 = None
   <-> exists article,
         article ∈ get_news U (news topic) topic
         /\ (article !! "title" = Some PNone
             \/ article !! "description" = Some PNone
             \/ article !! "content" = Some PNone
             \/ article !! "url" = Some PNone))
  /\ (invoke U D L nfkd news (input_state topic) w).2
     = foldl (fun w' article => (chain_run L (model_input U article) w').2)
             w (called_articles (get_news U (news topic) topic)).
Proof.
  rewrite invoke_unfold. cbn [fst snd]. split; [|apply summarize_node_world].
  set (arts := get_news U (news topic) topic).
  pose proof (summarize_node_is_Some U D L arts w) as Hret.
  destruct (summarize_node U D L arts w).1 as [sums|] eqn:Hsums;
    cbn [mbind option_bind].
  - assert (Hvalid : Forall (fun a => valid_for_tool a = true) arts)
      by (apply Hret; by eexists).
    apply summarize_node_Some in Hsums as [Hlen _]. symmetry in Hlen.
    pose proof (add_articles_is_Some U nfkd (length arts) 1 (zip arts sums)) as Hsome.
    rewrite (Forall_zip_fst (fun a => renderable a = true) arts sums Hlen) in Hsome.
    unfold generate_pdf_node, generate_pdf. cbn [state_articles state_summaries].
    destruct (add_articles U nfkd (length arts) 1 (zip arts sums)) as [secs|].
    + split; [done|]. intros (article & Hin & Hnull).
      assert (Hall : Forall (fun a => renderable a = true) arts)
        by (apply Hsome; by eexists).
      rewrite Forall_forall in Hall, Hvalid.
      specialize (Hall article Hin). specialize (Hvalid article Hin).
      apply get_news_elem in Hin as (raw & -> & _).
      destruct Hnull as [Ht | [Hd | [Hc | Hu]]].
      * assert (renderable (fetched raw) = false)
          by (apply renderable_fetched; by left). congruence.
      * assert (valid_for_tool (fetched raw) = false)
          by (apply valid_for_tool_fetched; by right; left). congruence.
      * assert (valid_for_tool (fetched raw) = false)
          by (apply valid_for_tool_fetched; by right; right). congruence.
      * assert (renderable (fetched raw) = false)
          by (apply renderable_fetched; by right). congruence.
    + split; [|done]. intros _.
      assert (Hnot : ~ Forall (fun a => renderable a = true) arts).
      { intros Hall. apply Hsome in Hall. by destruct Hall. }
      apply not_Forall_Exists in Hnot; [|apply _].
      apply Exists_exists in Hnot as (article & Hin & Hr). simpl in Hr.
      exists article. split; [done|].
      destruct (get_news_elem _ _ _ _ Hin) as (raw & -> & _).
      assert (Hr' : renderable (fetched raw) = false)
        by (by destruct (renderable (fetched raw))).
      apply renderable_fetched in Hr' as [Ht | Hu]; [by left|by right; right; right].
  - split; [|done]. intros _.
    assert (Hnot : ~ Forall (fun a => valid_for_tool a = true) arts).
    { intros Hall. apply Hret in Hall. by destruct Hall. }
    apply not_Forall_Exists in Hnot; [|apply _].
    apply Exists_exists in Hnot as (article & Hin & Hv). simpl in Hv.
    exists article. split; [done|].
    destruct (get_news_elem _ _ _ _ Hin) as (raw & -> & _).
    assert (Hv' : valid_for_tool (fetched raw) = false)
      by (by destruct (valid_for_tool (fetched raw))).
    apply valid_for_tool_fetched in Hv' as [Ht | [Hd | Hc]];
      [by left|by right; left|by right; right; left].
Qed.

(** The article with a [null] description is selected for its title, and
    the run raises in the summarize stage, before any call of the model. *)
Example run_raises_on_null_description :
  get_news ascii_tables (null_description_news (lit "electric vehicles"))
           (lit "electric vehicles") = [null_description_article]
  /\ invoke ascii_tables day_of_date echoing id null_description_news
            (input_state (lit "electric vehicles")) 0 = (None, 0).
Proof. split; by vm_compute. Qed.

(** X17. When [get_news] selects nothing, be it for a status that is not
    ok or for want of a relevant article, the run does not call the model,
    returns no summary, and its report is the opening alone, with the line
    Total Articles Found: 0. *)
Theorem invoke_without_articles
    (U : unicode) (D : datelib) (L : backend) (nfkd : str -> str)
    (news : str -> response) (topic : str) (w : world L) :
  get_news U (news topic) topic = [] ->
  invoke U D L nfkd news (input_state topic) w
  = (Some {| state_topic := topic;
             state_articles := [];
             state_summaries := [];
             state_pdf_path := [];
             state_pdf_bytes :=
               [ AddPage;
                 SetFont "Arial" "B" 12;
                 Cell 0 8 (clean_text nfkd (lit "Total Articles Found: 0")) 1 "" false;
                 Ln 5 ] |}, w).
Proof. intros Hnone. rewrite invoke_unfold, Hnone. reflexivity. Qed.

(** ** The further properties at concrete inputs *)

Lemma generate_pdf_dividers_witness :
  exists calls,
    generate_pdf ascii_tables id [scenario_article; scenario_article]
                 [scenario_summary; scenario_summary] (lit "electric vehicles")
    = Some calls
    /\ length (List.filter is_hline calls) = 1%nat.
Proof.
  eexists. split; [by vm_compute|].
  apply (generate_pdf_dividers ascii_tables id [scenario_article; scenario_article]
           [scenario_summary; scenario_summary] (lit "electric vehicles")).
  by vm_compute.
Defined.

Lemma pdf_texts_latin1_witness :
  exists calls,
    generate_pdf ascii_tables id [scenario_article] [scenario_summary]
                 (lit "electric vehicles") = Some calls
    /\ forallb (forallb (fun c => c <? 256)) (texts_of calls) = true.
Proof.
  eexists. split; [by vm_compute|].
  apply (proj2 (proj2 (pdf_texts_are_latin1 ascii_tables id [scenario_article]
                         [scenario_summary] (lit "electric vehicles") [] 1%nat))).
  by vm_compute.
Defined.

Lemma summarize_node_calls_witness :
  let arts := [scenario_article; null_description_article; second_article] in
  summarize_node ascii_tables day_of_date echoing arts 0 = (None, 1)
  /\ scenario_article ∈ called_articles arts
  /\ arts !! length (called_articles arts) = Some null_description_article
  /\ (exists t d c,
        get scenario_article "title" (PStr []) = PStr t
        /\ get scenario_article "description" (PStr []) = PStr d
        /\ get scenario_article "content" (PStr []) = PStr c
        /\ model_input ascii_tables scenario_article = article_text ascii_tables t d c)
  /\ (get null_description_article "title" (PStr []) = PNone
      \/ get null_description_article "description" (PStr []) = PNone
      \/ get null_description_article "content" (PStr []) = PNone).
Proof.
  cbv zeta.
  destruct (summarize_node_calls_once_per_valid_article ascii_tables day_of_date
              echoing [scenario_article; null_description_article; second_article] 0)
    as (_ & _ & Hcalled & Hstop).
  assert (Hin : scenario_article
                ∈ called_articles
                    [scenario_article; null_description_article; second_article]).
  { replace (called_articles
               [scenario_article; null_description_article; second_article])
      with [scenario_article] by (by vm_compute).
    apply list_elem_of_here. }
  assert (Hat : [scenario_article; null_description_article; second_article]
                  !! length (called_articles
                       [scenario_article; null_description_article; second_article])
                = Some null_description_article) by (by vm_compute).
  split; [by vm_compute|]. split; [exact Hin|]. split; [exact Hat|].
  split; [exact (Hcalled _ Hin)|exact (Hstop _ Hat)].
Defined.

Lemma invoke_result_witness :
  exists final,
    (invoke ascii_tables no_dates (scripted Raised) id scenario_news
            (input_state (lit "electric vehicles")) tt).1 = Some final
    /\ state_topic final = lit "electric vehicles"
    /\ state_articles final
       = get_news ascii_tables (scenario_news (lit "electric vehicles"))
                  (lit "electric vehicles")
    /\ length (state_summaries final) = length (state_articles final)
    /\ (length (state_articles final) <= 5)%nat
    /\ length (List.filter is_hline (state_pdf_bytes final))
       = (length (state_articles final) - 1)%nat.
Proof.
  eexists. split; [by vm_compute|].
  apply (invoke_result_invariants ascii_tables no_dates (scripted Raised) id
           scenario_news (lit "electric vehicles") tt).
  by vm_compute.
Defined.

Lemma invoke_without_articles_witness :
  invoke ascii_tables no_dates (scripted Raised) id failing_news
         (input_state (lit "electric vehicles")) tt
  = (Some {| state_topic := lit "electric vehicles";
             state_articles := [];
             state_summaries := [];
             state_pdf_path := [];
             state_pdf_bytes :=
               [ AddPage;
                 SetFont "Arial" "B" 12;
                 Cell 0 8 (clean_text id (lit "Total Articles Found: 0")) 1 "" false;
                 Ln 5 ] |}, tt).
Proof.
  apply (invoke_without_articles ascii_tables no_dates (scripted Raised) id
           failing_news (lit "electric vehicles") tt).
  reflexivity.
Defined.

(** ** The summary carries no tags marker *)

Lemma star_inv p k prev (s x : str) :
  star p k prev s = Some x ->
  exists prev' a s', s = a ++ s' /\ k prev' s' = Some x.
Proof.
  revert prev. induction s as [|c s IH]; intros prev; simpl.
  - intros H. by exists prev, [], [].
  - destruct (p c).
    + destruct (star p k (Some c) s) as [y|] eqn:E.
      * intros [= ->]. destruct (IH _ E) as (prev' & a & s' & -> & Hk).
        by exists prev', (c :: a), s'.
      * intros H. by exists prev, [], (c :: s).
    + intros H. by exists prev, [], (c :: s).
Qed.

(** A successful match hands a suffix of the subject to the continuation. *)
Lemma rmatch_inv U r prev (s : str) k (x : str) :
  rmatch U r prev s k = Some x ->
  exists prev' a s', s = a ++ s' /\ k prev' s' = Some x.
Proof.
  revert prev s k. induction r as [| p | | | r1 IH1 r2 IH2 | p | r1 IH1];
    intros prev s k; simpl.
  - intros H. by exists prev, [], s.
  - destruct s as [|c s]; [done|]. destruct (p c); [|done].
    intros H. by exists (Some c), [c], s.
  - destruct (at_boundary U prev s); [|done]. intros H. by exists prev, [], s.
  - destruct (at_eol s); [|done]. intros H. by exists prev, [], s.
  - intros (p1 & a1 & s1 & -> & H1)%IH1.
    apply IH2 in H1 as (p2 & a2 & s2 & -> & H2).
    exists p2, (a1 ++ a2), s2. by rewrite app_assoc.
  - apply star_inv.
  - destruct (rmatch U r1 prev s k) as [y|] eqn:E.
    + intros [= <-]. apply (IH1 _ _ _ E).
    + intros H. by exists prev, [], s.
Qed.

Lemma rmatch_eol U r prev (s : str) k (x : str) :
  ends_at_eol r = true ->
  rmatch U r prev s k = Some x ->
  exists prev' a s', s = a ++ s' /\ at_eol s' = true /\ k prev' s' = Some x.
Proof.
  revert prev s k. induction r as [| p | | | r1 IH1 r2 IH2 | p | r1 IH1];
    intros prev s k; simpl; try done.
  - intros _. destruct (at_eol s) eqn:E; [|done]. intros H. by exists prev, [], s.
  - intros Hr (p1 & a1 & s1 & -> & H1)%rmatch_inv.
    apply IH2 in H1 as (p2 & a2 & s2 & -> & He & H2); [|done].
    exists p2, (a1 ++ a2), s2. by rewrite app_assoc.
Qed.

Lemma match_here_eol U r prev (s rest : str) :
  ends_at_eol r = true ->
  match_here U r prev s = Some rest ->
  exists a, s = a ++ rest /\ at_eol rest = true.
Proof.
  intros Hr (p' & a & s' & -> & He & [= <-])%rmatch_eol; [|done]. by exists a.
Qed.

Lemma at_eol_inv (s : str) : at_eol s = true -> s = [] \/ s = [10].
Proof.
  destruct s as [|c [|d s]]; simpl; try done; [by left|].
  intros ->%N.eqb_eq. by right.
Qed.

Lemma sub_from_skip U r prev (a b : str) :
  sub_from U r (length a) prev (a ++ b) = sub_from U r 0 (prev_after prev a) b.
Proof.
  revert prev. induction a as [|c a IH]; intros prev; [done|].
  simpl. by rewrite IH, prev_after_cons.
Qed.

(** Deleting the matches of a pattern that ends with [$] keeps a prefix of
    the subject, and at most the newline that ends it. *)
Lemma sub_from_eol U r :
  ends_at_eol r = true ->
  (forall prev, sub_from U r 0 prev [10] = [10]) ->
  forall (s : str) prev,
    exists pre mid rest,
      s = pre ++ mid ++ rest
      /\ sub_from U r 0 prev s = pre ++ rest
      /\ (rest = [] \/ rest = [10]).
Proof.
  intros Hr Hnl s. induction s as [|c s IH]; intros prev.
  - exists [], [], []. by repeat split; auto.
  - cbn [sub_from]. destruct (match_here U r prev (c :: s)) as [rest|] eqn:E.
    + destruct (match_here_eol _ _ _ _ _ Hr E) as (a & Ha & He).
      replace (length (c :: s) - length rest)%nat with (length a)
        by (rewrite Ha, length_app; lia).
      destruct a as [|c' a].
      * simpl in Ha. subst rest. apply at_eol_inv in He as [He|He]; [done|].
        injection He as Hc Hs. subst c s. cbn.
        exists [10], [], []. by repeat split; auto.
      * simpl in Ha. injection Ha as <- ->. cbn [length].
        rewrite sub_from_skip. exists [], (c :: a), rest.
        apply at_eol_inv in He as [-> | ->].
        -- by repeat split; auto.
        -- rewrite Hnl. by repeat split; auto.
    + destruct (IH (Some c)) as (pre & mid & rest & -> & -> & Hrest).
      by exists (c :: pre), mid, rest.
Qed.

Lemma startswith_app (p s t : str) :
  startswith p s = true -> startswith p (s ++ t) = true.
Proof.
  revert s. induction p as [|a p IH]; intros [|b s]; simpl; try done.
  intros [-> H]%andb_prop. by rewrite IH.
Qed.

Lemma contains_app_l sep (a b : str) :
  contains sep a = true -> contains sep (a ++ b) = true.
Proof.
  induction a as [|c a IH]; simpl.
  - rewrite orb_false_r. intros H. apply (startswith_app _ _ b) in H.
    simpl in H. destruct b; simpl; by rewrite H.
  - intros [H|H]%orb_prop.
    + pose proof (startswith_app _ _ b H) as H'. simpl in H'. by rewrite H'.
    + rewrite (IH H). apply orb_true_r.
Qed.

Lemma contains_app_r sep (a b : str) :
  contains sep b = true -> contains sep (a ++ b) = true.
Proof.
  intros H. induction a as [|c a IH]; simpl; [done|].
  rewrite IH. apply orb_true_r.
Qed.

Lemma startswith_snoc_other sep (x : str) c :
  sep <> [] -> c ∉ sep -> startswith sep (x ++ [c]) = startswith sep x.
Proof.
  revert x. induction sep as [|a sep IH]; intros x Hne Hc; [done|].
  apply not_elem_of_cons in Hc as [Hca Hc].
  destruct x as [|b x]; simpl.
  - destruct (N.eqb_spec a c); [congruence|done].
  - destruct sep as [|a' sep]; [done|]. by rewrite IH.
Qed.

Lemma contains_snoc_other sep (x : str) c :
  sep <> [] -> c ∉ sep -> contains sep (x ++ [c]) = contains sep x.
Proof.
  intros Hne Hc. induction x as [|b x IH].
  - destruct sep as [|a sep]; [done|].
    apply not_elem_of_cons in Hc as [Hca _]. simpl.
    destruct (N.eqb_spec a c); [congruence|done].
  - cbn [app contains]. change (b :: x ++ [c]) with ((b :: x) ++ [c]).
    by rewrite (startswith_snoc_other sep (b :: x) c Hne Hc), IH.
Qed.

Lemma partition_prefix sep (s a b : str) :
  partition sep s = Some (a, b) -> exists t, s = a ++ t.
Proof.
  revert a. induction s as [|c s IH]; intros a; simpl.
  - destruct (startswith sep []); [|done]. intros [= <- _]. by exists [].
  - destruct (startswith sep (c :: s)); [intros [= <- _]; by eexists|].
    destruct (partition sep s) as [[a' b']|]; [|done].
    intros [= <- <-]. destruct (IH a' eq_refl) as [t ->]. by exists t.
Qed.

(** The text before the first occurrence of a marker holds no occurrence. *)
Lemma partition_first_clean sep (s a b : str) :
  sep <> [] -> partition sep s = Some (a, b) -> contains sep a = false.
Proof.
  intros Hne. revert a. induction s as [|c s IH]; intros a; simpl.
  - destruct (startswith sep []); [|done]. intros [= <- _]. by destruct sep.
  - destruct (startswith sep (c :: s)) eqn:Hsw.
    { intros [= <- _]. by destruct sep. }
    destruct (partition sep s) as [[a' b']|] eqn:E; [|done].
    intros [= <- <-]. simpl. rewrite (IH a' eq_refl), orb_false_r.
    destruct (partition_prefix _ _ _ _ E) as [t ->].
    destruct (startswith sep (c :: a')) eqn:Hsw'; [|done].
    apply (startswith_app _ _ t) in Hsw'. simpl in Hsw'. congruence.
Qed.

Lemma partition_None_clean sep (s : str) :
  partition sep s = None -> contains sep s = false.
Proof.
  intros Hp. destruct (contains sep s) eqn:E; [|done].
  apply partition_contains in E as [? ?]. congruence.
Qed.

Lemma split_on_first_clean sep (s a : str) :
  sep <> [] -> split_on sep s !! 0%nat = Some a -> contains sep a = false.
Proof.
  intros Hne. unfold split_on. destruct s as [|c s]; simpl.
  - intros [= <-]. by destruct sep.
  - destruct (startswith sep (c :: s)) eqn:Hsw.
    { simpl. intros [= <-]. by destruct sep. }
    destruct (partition sep s) as [[a' b']|] eqn:E; simpl.
    + intros [= <-].
      apply (partition_first_clean sep (c :: s) (c :: a') b' Hne).
      simpl. by rewrite Hsw, E.
    + intros [= <-]. apply partition_None_clean. simpl. by rewrite Hsw, E.
Qed.

Lemma contains_lstrip sep (s : str) :
  contains sep s = false -> contains sep (lstrip s) = false.
Proof.
  intros H. destruct (lstrip_suffix s) as [a Ha].
  destruct (contains sep (lstrip s)) eqn:E; [|done].
  apply (contains_app_r sep a) in E. congruence.
Qed.

Lemma contains_strip sep (s : str) :
  contains sep s = false -> contains sep (strip s) = false.
Proof.
  intros H. unfold strip. apply contains_lstrip.
  destruct (rstrip_prefix s) as [b Hb].
  destruct (contains sep (rstrip s)) eqn:E; [|done].
  apply (contains_app_l sep _ b) in E. congruence.
Qed.

Lemma re_sub_keeps_clean U r sep (s : str) :
  ends_at_eol r = true ->
  (forall prev, sub_from U r 0 prev [10] = [10]) ->
  sep <> [] -> 10 ∉ sep ->
  contains sep s = false -> contains sep (re_sub U r s) = false.
Proof.
  intros Hr Hnl Hne Hsep Hs. unfold re_sub.
  destruct (sub_from_eol U r Hr Hnl s None) as (pre & mid & rest & -> & -> & Hrest).
  assert (Hpre : contains sep pre = false).
  { destruct (contains sep pre) eqn:E; [|done].
    apply (contains_app_l sep _ (mid ++ rest)) in E. congruence. }
  destruct Hrest as [->| ->]; [by rewrite app_nil_r|].
  by rewrite contains_snoc_other.
Qed.

Lemma tags_colon_re_newline U prev : sub_from U tags_colon_re 0 prev [10] = [10].
Proof. by destruct prev. Qed.

Lemma tags_word_re_newline U prev : sub_from U tags_word_re 0 prev [10] = [10].
Proof.
  destruct prev as [c|]; [|done].
  cbn. unfold at_boundary. simpl. by destruct (isword U c).
Qed.

Lemma extract_summary_no_tags U result s :
  extract_summary U result = Some s -> contains TAGS s = false.
Proof.
  unfold extract_summary.
  assert (Hclean : forall s0 : str,
    (summary ← (if contains TAGS s0
                then b ← split_on TAGS s0 !! 0%nat; Some (strip b) else Some s0);
     Some (re_sub U tags_word_re (re_sub U tags_colon_re summary))) = Some s ->
    contains TAGS s = false).
  { intros s0 H.
    assert (exists s1, contains TAGS s1 = false
               /\ s = re_sub U tags_word_re (re_sub U tags_colon_re s1))
      as (s1 & Hs1 & ->).
    { destruct (contains TAGS s0) eqn:E.
      - destruct (split_on TAGS s0 !! 0%nat) as [b|] eqn:Eb; [|done].
        cbn [mbind option_bind] in H. apply (inj Some) in H.
        exists (strip b). split; [|done].
        by apply contains_strip, (split_on_first_clean TAGS s0).
      - cbn [mbind option_bind] in H. apply (inj Some) in H. by exists s0. }
    apply re_sub_keeps_clean;
      [done|apply tags_word_re_newline|done|by apply (bool_decide_unpack _)|].
    apply re_sub_keeps_clean;
      [done|apply tags_colon_re_newline|done|by apply (bool_decide_unpack _)|done]. }
  destruct (contains SUMMARY result); [|apply Hclean].
  destruct (contains TAG result).
  - destruct (split_on SUMMARY result !! 1%nat) as [a|]; [|done].
    cbn [mbind option_bind].
    destruct (split_on TAG a !! 0%nat) as [b|]; [|done]. apply Hclean.
  - destruct (split_on SUMMARY result !! 1%nat) as [a|]; [|done]. apply Hclean.
Qed.

(** X18. The summary the tool returns never holds the marker Tags:,
    whatever the model answered: what follows the marker is cut off, and the
    two clean-up passes only ever delete a tail of the text. *)
Theorem summarize_summary_has_no_tags_marker
    (U : unicode) (L : backend) (title description content : pyval) (w : world L) :
  contains TAGS (summary (summarize_article_tool U L title description content w).1)
  = false.
Proof.
  destruct (chain_run L (truncated_text U title description content) w)
    as [[result|] w'] eqn:Hrun.
  - destruct (summarize_article_tool_Returned _ _ _ _ _ _ _ _ Hrun)
      as (h & s & tg & _ & Hs & _ & ->).
    by apply (extract_summary_no_tags U result).
  - by rewrite (summarize_article_tool_Raised _ _ _ _ _ _ _ Hrun).
Qed.

(** ** Parsing an answer in the requested format *)

Lemma startswith_eq (p s : str) :
  startswith p s = true -> s = p ++ drop (length p) s.
Proof.
  revert s. induction p as [|a p IH]; intros [|b s]; simpl; try done.
  intros [->%N.eqb_eq H]%andb_prop. f_equal. by apply IH.
Qed.

(** The three markers end with a colon.  In a text cut at a colon, with no
    colon before the cut, a marker starts where the text before the colon
    is the marker's body. *)
Lemma startswith_colon (body xs rest : str) :
  58 ∉ body -> 58 ∉ xs ->
  startswith (body ++ [58]) (xs ++ 58 :: rest) = true <-> xs = body.
Proof.
  revert xs. induction body as [|b body IH]; intros xs Hb Hx.
  - destruct xs as [|c xs]; cbn [startswith app].
    + by rewrite N.eqb_refl.
    + apply not_elem_of_cons in Hx as [Hc _].
      destruct (N.eqb_spec 58 c) as [E|E]; [done|]. split; done.
  - apply not_elem_of_cons in Hb as [Hb1 Hb].
    destruct xs as [|c xs]; cbn [startswith app].
    + destruct (N.eqb_spec b 58) as [E|E]; [congruence|]. split; done.
    + apply not_elem_of_cons in Hx as [_ Hx].
      destruct (N.eqb_spec b c) as [->|Hne]; cbn [andb].
      * rewrite (IH xs Hb Hx). split; [by intros ->|by intros [= ->]].
      * split; [done|]. intros [= ? ?]. congruence.
Qed.

Lemma drop_marker (body rest : str) :
  drop (length (body ++ [58])) (body ++ 58 :: rest) = rest.
Proof.
  rewrite length_app. simpl.
  replace (body ++ 58 :: rest) with ((body ++ [58]) ++ rest)
    by (by rewrite <- app_assoc).
  rewrite drop_app_length'; [done|]. rewrite length_app. simpl. lia.
Qed.

(** The first occurrence: the marker's body right before the first colon. *)
Lemma partition_colon_hit (body x0 rest : str) :
  58 ∉ body -> 58 ∉ x0 ->
  partition (body ++ [58]) (x0 ++ body ++ 58 :: rest) = Some (x0, rest).
Proof.
  intros Hb. induction x0 as [|c x0 IH]; intros Hx.
  - assert (Hsw : startswith (body ++ [58]) (body ++ 58 :: rest) = true)
      by (by apply startswith_colon).
    destruct body as [|b body]; simpl in *.
    + done.
    + rewrite Hsw. f_equal. f_equal. apply (drop_marker (b :: body) rest).
  - assert (Hsw : startswith (body ++ [58]) ((c :: x0) ++ body ++ 58 :: rest) = false).
    { destruct (startswith _ _) eqn:E; [|done].
      rewrite app_assoc in E. apply startswith_colon in E; [|done|].
      - apply (f_equal length) in E. rewrite length_app in E. simpl in E. lia.
      - intros [?|?]%elem_of_app; [by apply Hx|by apply Hb]. }
    apply not_elem_of_cons in Hx as [_ Hx].
    change ((c :: x0) ++ body ++ 58 :: rest) with (c :: x0 ++ body ++ 58 :: rest) in *.
    cbn [partition]. rewrite Hsw, (IH Hx). done.
Qed.

(** No occurrence at the first colon: the search goes on after it. *)
Lemma partition_colon_miss (body x rest : str) :
  58 ∉ body -> 58 ∉ x -> (forall x0, x <> x0 ++ body) ->
  partition (body ++ [58]) (x ++ 58 :: rest)
  = (fun ab => (x ++ 58 :: ab.1, ab.2)) <$> partition (body ++ [58]) rest.
Proof.
  intros Hb. induction x as [|c x IH]; intros Hx Hsuf.
  - assert (Hsw : startswith (body ++ [58]) ([] ++ 58 :: rest) = false).
    { destruct (startswith _ _) eqn:E; [|done].
      apply startswith_colon in E; [|done|done]. by destruct (Hsuf []). }
    simpl in *. rewrite Hsw.
    by destruct (partition (body ++ [58]) rest) as [[a b]|].
  - assert (Hsw : startswith (body ++ [58]) ((c :: x) ++ 58 :: rest) = false).
    { destruct (startswith _ _) eqn:E; [|done].
      apply startswith_colon in E; [|done|done]. by destruct (Hsuf []). }
    apply not_elem_of_cons in Hx as [_ Hx].
    change ((c :: x) ++ 58 :: rest) with (c :: x ++ 58 :: rest) in *.
    cbn [partition]. rewrite Hsw, (IH Hx).
    + by destruct (partition (body ++ [58]) rest) as [[a b]|].
    + intros x0 ->. by apply (Hsuf (c :: x0)).
Qed.

Lemma partition_Some_contains sep (s : str) ab :
  partition sep s = Some ab -> contains sep s = true.
Proof.
  revert ab. induction s as [|c s IH]; intros ab; cbn [partition contains].
  - by destruct (startswith sep []).
  - destruct (startswith sep (c :: s)); [done|].
    destruct (partition sep s) as [ab'|]; [|done].
    intros _. by rewrite (IH ab').
Qed.

Lemma contains_marker_colon (body t : str) :
  contains (body ++ [58]) t = true -> 58 ∈ t.
Proof.
  induction t as [|c t IH]; cbn [contains].
  - rewrite orb_false_r. by destruct body.
  - intros [Hsw|Hc]%orb_prop.
    + apply startswith_eq in Hsw. rewrite Hsw.
      apply elem_of_app. left. apply elem_of_app. right. apply list_elem_of_here.
    + apply elem_of_cons. right. by apply IH.
Qed.

(** No colon, no marker. *)
Lemma partition_colon_free (body t : str) :
  58 ∉ t -> partition (body ++ [58]) t = None.
Proof.
  intros Ht. destruct (partition (body ++ [58]) t) as [ab|] eqn:E; [|done].
  exfalso. by apply Ht, (contains_marker_colon body), (partition_Some_contains _ _ ab).
Qed.

Lemma not_suffix_by_last (x body : str) c d :
  last x = Some c -> last body = Some d -> c <> d -> forall x0, x <> x0 ++ body.
Proof.
  intros Hx Hb Hne x0 ->. apply last_Some in Hb as [b0 ->].
  rewrite app_assoc, last_snoc in Hx. congruence.
Qed.

Lemma partition_app sep (s a b : str) :
  partition sep s = Some (a, b) -> s = a ++ sep ++ b.
Proof.
  revert a. induction s as [|c s IH]; intros a; cbn [partition].
  - destruct (startswith sep []) eqn:E; [|done]. intros [= <- <-].
    by apply startswith_eq in E.
  - destruct (startswith sep (c :: s)) eqn:E.
    + intros [= <- <-]. by apply startswith_eq in E.
    + destruct (partition sep s) as [[a' b']|]; [|done].
      intros [= <- <-]. simpl. f_equal. by apply IH.
Qed.

(** [s.split(sep)[0]] and [s.split(sep)[1]] through [partition]. *)
Lemma split_on_0 sep (s : str) :
  sep <> [] ->
  split_on sep s !! 0%nat
  = Some (match partition sep s with Some (a, _) => a | None => s end).
Proof.
  intros Hne. unfold split_on. destruct s as [|c s].
  - destruct sep; [done|]. reflexivity.
  - cbn [length split_on_fuel]. by destruct (partition sep (c :: s)) as [[a b]|].
Qed.

Lemma split_on_1 sep (s a b : str) :
  sep <> [] ->
  partition sep s = Some (a, b) ->
  split_on sep s !! 1%nat
  = Some (match partition sep b with Some (a', _) => a' | None => b end).
Proof.
  intros Hne Hp. pose proof (partition_app _ _ _ _ Hp) as Hs.
  unfold split_on. destruct s as [|c s].
  - destruct a, sep; simpl in Hs; done.
  - cbn [length split_on_fuel]. rewrite Hp. cbn [lookup list_lookup].
    destruct (length s) as [|n] eqn:En.
    + apply (f_equal length) in Hs. rewrite !length_app in Hs. simpl in Hs.
      destruct sep; [done|]. simpl in Hs.
      destruct b; [|simpl in Hs; lia]. reflexivity.
    + cbn [split_on_fuel]. by destruct (partition sep b) as [[a' b']|].
Qed.

Lemma lstrip_app_blank (a x : str) :
  forallb isspace a = true -> lstrip (a ++ x) = lstrip x.
Proof.
  induction a as [|c a IH]; [done|]. simpl. intros [-> Ha]%andb_prop. auto.
Qed.

Lemma lstrip_snoc (u : str) c :
  lstrip (u ++ [c])
  = if forallb isspace u then (if isspace c then [] else [c]) else lstrip u ++ [c].
Proof.
  induction u as [|d u IH]; simpl; [done|].
  destruct (isspace d); simpl; [exact IH|done].
Qed.

Lemma rstrip_cons c (y : str) :
  rstrip (c :: y) = if forallb isspace (c :: y) then [] else c :: rstrip y.
Proof.
  unfold rstrip. cbn [rev forallb]. rewrite lstrip_snoc, forallb_rev.
  destruct (forallb isspace y) eqn:Ey.
  - rewrite andb_true_r. rewrite (lstrip_blank (rev y)) by (by rewrite forallb_rev).
    by destruct (isspace c).
  - rewrite andb_false_r, rev_app_distr. done.
Qed.

(** Stripping the left and the right end commute. *)
Lemma lstrip_rstrip (y : str) : lstrip (rstrip y) = rstrip (lstrip y).
Proof.
  induction y as [|c y IH]; [done|].
  rewrite rstrip_cons. cbn [forallb lstrip].
  destruct (isspace c) eqn:Ec; cbn [andb].
  - destruct (forallb isspace y) eqn:Ey.
    + by rewrite (lstrip_blank y Ey).
    + cbn [lstrip]. by rewrite Ec, IH.
  - cbn [lstrip]. rewrite Ec, rstrip_cons. cbn [forallb]. by rewrite Ec.
Qed.

Lemma rstrip_app_blank (x b : str) :
  forallb isspace b = true -> rstrip (x ++ b) = rstrip x.
Proof.
  intros Hb. unfold rstrip. rewrite rev_app_distr.
  by rewrite lstrip_app_blank by (by rewrite forallb_rev).
Qed.

(** White space around a text does not change what [strip] returns. *)
Lemma strip_pad (a x b : str) :
  forallb isspace a = true -> forallb isspace b = true ->
  strip (a ++ x ++ b) = strip x.
Proof.
  intros Ha Hb. unfold strip.
  rewrite app_assoc, (rstrip_app_blank _ b Hb).
  by rewrite !lstrip_rstrip, (lstrip_app_blank a x Ha).
Qed.

Lemma lstrip_blank_prefix (s : str) :
  exists a, s = a ++ lstrip s /\ forallb isspace a = true.
Proof.
  induction s as [|c s (a & IH & Ha)]; simpl; [by exists []|].
  destruct (isspace c) eqn:Ec; [|by exists []].
  exists (c :: a). simpl. rewrite Ec, Ha. split; [by f_equal|done].
Qed.

Lemma strip_lstrip (s : str) : strip (lstrip s) = strip s.
Proof.
  destruct (lstrip_blank_prefix s) as (a & Hs & Ha).
  rewrite Hs at 2. rewrite <- (app_nil_r (lstrip s)) at 2.
  by rewrite (strip_pad a (lstrip s) []).
Qed.

Lemma lstrip_app_nonspace (x : str) c (z : str) :
  isspace c = false -> lstrip (x ++ c :: z) = lstrip x ++ c :: z.
Proof.
  intros Hc. induction x as [|d x IH]; simpl; [by rewrite Hc|].
  by destruct (isspace d).
Qed.

Lemma forallb_app_nonspace (u : str) c (z : str) :
  isspace c = false -> forallb isspace (u ++ c :: z) = false.
Proof. intros Hc. rewrite forallb_app. simpl. rewrite Hc. apply andb_false_r. Qed.

Lemma rstrip_app_nonspace (u : str) c (z : str) :
  isspace c = false -> rstrip (u ++ c :: z) = u ++ c :: rstrip z.
Proof.
  intros Hc. induction u as [|d u IH].
  - cbn [app]. rewrite rstrip_cons. cbn [forallb]. by rewrite Hc.
  - cbn [app]. rewrite rstrip_cons, IH. cbn [forallb].
    by rewrite (forallb_app_nonspace u c z Hc), andb_false_r.
Qed.

Lemma sub_from_no_match U r prev (s : str) :
  search_from U r prev s = false -> sub_from U r 0 prev s = s.
Proof.
  revert prev. induction s as [|c s IH]; intros prev; [done|].
  cbn [search_from sub_from].
  destruct (match_here U r prev (c :: s)); [done|].
  intros H. by rewrite (IH _ H).
Qed.

Lemma rmatch_cat_inv U r1 r2 prev (s : str) k (x : str) :
  rmatch U (Cat r1 r2) prev s k = Some x ->
  exists prev' a s', s = a ++ s' /\ rmatch U r2 prev' s' k = Some x.
Proof. cbn [rmatch]. apply rmatch_inv. Qed.

(** A match of the first clean-up pattern consumes a colon. *)
Lemma match_here_colon U prev (s x : str) :
  match_here U tags_colon_re prev s = Some x -> 58 ∈ s.
Proof.
  unfold match_here, tags_colon_re.
  intros (p1 & a1 & s1 & -> & H)%rmatch_cat_inv.
  apply rmatch_cat_inv in H as (p2 & a2 & s2 & -> & H).
  apply rmatch_cat_inv in H as (p3 & a3 & s3 & -> & H).
  apply rmatch_cat_inv in H as (p4 & a4 & s4 & -> & H).
  apply rmatch_cat_inv in H as (p5 & a5 & s5 & -> & H).
  cbn [rmatch] in H. destruct s5 as [|c s5]; [done|].
  unfold is_chr in H. destruct (N.eqb_spec c 58) as [->|]; [|done].
  rewrite !elem_of_app. do 5 right. apply list_elem_of_here.
Qed.

Lemma search_colon_free U prev (s : str) :
  58 ∉ s -> search_from U tags_colon_re prev s = false.
Proof.
  revert prev. induction s as [|c s IH]; intros prev Hs; cbn [search_from].
  - destruct (match_here U tags_colon_re prev []) eqn:E; [|done].
    by apply match_here_colon in E.
  - destruct (match_here U tags_colon_re prev (c :: s)) eqn:E.
    + by apply match_here_colon in E.
    + apply not_elem_of_cons in Hs as [_ Hs]. by apply IH.
Qed.

(** Cutting a comma-separated list back into its entries. *)
Lemma partition_chr_hit x (a rest : str) :
  x ∉ a -> partition [x] (a ++ x :: rest) = Some (a, rest).
Proof.
  induction a as [|c a IH]; intros Ha; cbn [app partition startswith].
  - by rewrite N.eqb_refl.
  - apply not_elem_of_cons in Ha as [Hne Ha].
    destruct (N.eqb_spec x c) as [->|_]; [done|]. cbn [andb].
    by rewrite (IH Ha).
Qed.

Lemma partition_chr_free x (a : str) : x ∉ a -> partition [x] a = None.
Proof.
  induction a as [|c a IH]; intros Ha; [done|]. cbn [partition startswith].
  apply not_elem_of_cons in Ha as [Hne Ha].
  destruct (N.eqb_spec x c) as [->|_]; [done|]. cbn [andb].
  by rewrite (IH Ha).
Qed.

Lemma split_on_comma_join n (p y : str) (r : list str) :
  44 ∉ p -> Forall (fun t => 44 ∉ t) (y :: r) ->
  (length (p ++ join [44%N; 32%N] (y :: r)) <= n)%nat ->
  split_on_fuel n [44] (p ++ join [44; 32] (y :: r)) = (p ++ y) :: (cons 32 <$> r).
Proof.
  revert n p y. induction r as [|y2 r IH]; intros n p y Hp Hall Hlen.
  - apply Forall_cons in Hall as [Hy _]. cbn [join fmap list_fmap].
    assert (44 ∉ p ++ y) as Hpy by (by intros [?|?]%elem_of_app).
    destruct n as [|n]; [done|]. cbn [split_on_fuel].
    by rewrite (partition_chr_free 44 _ Hpy).
  - apply Forall_cons in Hall as [Hy Hall].
    assert (44 ∉ p ++ y) as Hpy by (by intros [?|?]%elem_of_app).
    change (join [44; 32] (y :: y2 :: r))
      with (y ++ [44; 32] ++ join [44; 32] (y2 :: r)) in *.
    replace (p ++ y ++ [44; 32] ++ join [44; 32] (y2 :: r))
      with ((p ++ y) ++ 44 :: ([32] ++ join [44; 32] (y2 :: r))) in *
      by (by rewrite <- app_assoc).
    destruct n as [|n]; [rewrite length_app in Hlen; simpl in Hlen; lia|].
    cbn [split_on_fuel]. rewrite (partition_chr_hit 44 _ _ Hpy).
    rewrite (IH n [32] y2); [done| |done|].
    + apply not_elem_of_cons. split; [done|apply not_elem_of_nil].
    + rewrite length_app in Hlen. simpl in Hlen. simpl. lia.
Qed.

Lemma well_formed_tag_stripped (t : str) : well_formed_tag t -> strip t = t.
Proof.
  intros (_ & _ & Hh & Hl). unfold strip.
  by rewrite (rstrip_id t Hl), (lstrip_id t Hh).
Qed.

Lemma strip_space_tag (t : str) : well_formed_tag t -> strip (32 :: t) = t.
Proof.
  intros Ht. change (32 :: t) with ([32] ++ t). rewrite <- (app_nil_r t) at 1.
  rewrite (strip_pad [32] t []) by done. by apply well_formed_tag_stripped.
Qed.

Lemma join_head sep (y : str) (r : list str) c :
  head y = Some c -> head (join sep (y :: r)) = Some c.
Proof. destruct y as [|d y]; [done|]. by destruct r. Qed.

Lemma join_last sep (l : list str) :
  Forall (fun t => t <> []) l -> l <> [] ->
  exists t c, last l = Some t /\ last t = Some c /\ last (join sep l) = Some c.
Proof.
  induction l as [|y r IH]; [done|]. intros Hall _.
  apply Forall_cons in Hall as [Hy Hall].
  destruct r as [|y2 r].
  - destruct (last y) as [c|] eqn:E; [by exists y, c|]. by apply last_None in E.
  - destruct (IH Hall) as (t & c & Ht & Hc & Hl); [done|].
    exists t, c. split; [by rewrite last_cons, Ht|]. split; [done|].
    change (join sep (y :: y2 :: r)) with (y ++ sep ++ join sep (y2 :: r)).
    by rewrite !last_app, Hl.
Qed.

(** Non-membership in a list written with [::] and [++]. *)
Ltac not_in_list :=
  repeat first [ apply not_elem_of_nil
               | apply not_elem_of_cons; split; [done|]
               | apply not_elem_of_app; split; [|]
               | assumption
               | done ].

Lemma join_not_elem (x : char) sep (l : list str) :
  x ∉ sep -> Forall (fun t => x ∉ t) l -> x ∉ join sep l.
Proof.
  intros Hsep. induction 1 as [|t r Ht Hr IH]; [apply not_elem_of_nil|].
  destruct r as [|t2 r]; [done|].
  change (join sep (t :: t2 :: r)) with (t ++ sep ++ join sep (t2 :: r)).
  not_in_list.
Qed.

Section FormatThenParse.
Context (U : unicode) (h s : str) (tgs : list str).
Hypothesis h_colon : 58 ∉ h.
Hypothesis s_colon : 58 ∉ s.
Hypothesis tgs_colon : Forall (fun t => 58 ∉ t) tgs.
Hypothesis h_stripped : strip h = h.
Hypothesis s_stripped : strip s = s.
Hypothesis tgs_ok : Forall well_formed_tag tgs.
Hypothesis tgs_count : (length tgs <= 3)%nat.
Hypothesis s_no_tags_word : re_search U tags_word_re s = false.

(** The answer, cut at its three colons. *)
Let tail : str := 32 :: join [44; 32] tgs.
Let x3 : str := (32 :: s ++ [10]) ++ [84; 97; 103; 115].
Let x2 : str := (32 :: h ++ [10]) ++ [83; 117; 109; 109; 97; 114; 121].
Let x1 : str := [72; 101; 97; 100; 108; 105; 110; 101].
Let R2 : str := x3 ++ 58 :: tail.
Let R1 : str := x2 ++ 58 :: R2.

Lemma format_answer_cut : format_answer h s tgs = x1 ++ 58 :: R1.
Proof.
  unfold format_answer, R1, R2, x1, x2, x3, tail.
  rewrite <- !app_assoc. cbn [app]. rewrite <- !app_assoc. reflexivity.
Qed.

Lemma x1_colon : 58 ∉ x1.
Proof. unfold x1. not_in_list. Qed.

Lemma x2_colon : 58 ∉ x2.
Proof. unfold x2. not_in_list. Qed.

Lemma x3_colon : 58 ∉ x3.
Proof. unfold x3. not_in_list. Qed.

Lemma join_colon : 58 ∉ join [44; 32] tgs.
Proof. apply join_not_elem; [not_in_list|done]. Qed.

Lemma tail_colon : 58 ∉ tail.
Proof. unfold tail. pose proof join_colon. not_in_list. Qed.


Lemma last_x1 : last x1 = Some 101.
Proof. reflexivity. Qed.

Lemma last_x2 : last x2 = Some 121.
Proof. unfold x2. by rewrite last_app. Qed.

Lemma last_x3 : last x3 = Some 115.
Proof. unfold x3. by rewrite last_app. Qed.

(** No marker whose body ends unlike the three segments occurs at all. *)
Lemma partition_R2_miss (body : str) d :
  58 ∉ body -> last body = Some d -> d <> 115 ->
  partition (body ++ [58]) R2 = None.
Proof.
  intros Hb Hl Hd. unfold R2.
  rewrite (partition_colon_miss body x3 tail Hb x3_colon).
  - by rewrite (partition_colon_free body tail tail_colon).
  - apply (not_suffix_by_last x3 body 115 d last_x3 Hl). congruence.
Qed.

Lemma partition_R1_miss (body : str) d :
  58 ∉ body -> last body = Some d -> d <> 115 -> d <> 121 ->
  partition (body ++ [58]) R1 = None.
Proof.
  intros Hb Hl Hd3 Hd2. unfold R1.
  rewrite (partition_colon_miss body x2 R2 Hb x2_colon).
  - by rewrite (partition_R2_miss body d).
  - apply (not_suffix_by_last x2 body 121 d last_x2 Hl). congruence.
Qed.

Lemma partition_HEADLINE_answer : partition HEADLINE (x1 ++ 58 :: R1) = Some ([], R1).
Proof. apply (partition_colon_hit x1 [] R1 x1_colon). apply not_elem_of_nil. Qed.

Lemma partition_HEADLINE_R1 : partition HEADLINE R1 = None.
Proof. by apply (partition_R1_miss x1 101 x1_colon last_x1). Qed.

Lemma partition_SUMMARY_R1 :
  partition SUMMARY R1 = Some (32 :: h ++ [10], R2).
Proof.
  unfold R1, x2. rewrite <- app_assoc.
  apply (partition_colon_hit [83; 117; 109; 109; 97; 114; 121] (32 :: h ++ [10]) R2);
    not_in_list.
Qed.

Lemma partition_SUMMARY_answer :
  partition SUMMARY (x1 ++ 58 :: R1) = Some (x1 ++ 58 :: 32 :: h ++ [10], R2).
Proof.
  change SUMMARY with ([83; 117; 109; 109; 97; 114; 121] ++ [58]).
  rewrite (partition_colon_miss _ x1 R1); [|not_in_list|apply x1_colon|].
  - change ([83; 117; 109; 109; 97; 114; 121] ++ [58]) with SUMMARY.
    by rewrite partition_SUMMARY_R1.
  - by apply (not_suffix_by_last x1 _ 101 121).
Qed.

Lemma partition_SUMMARY_R2 : partition SUMMARY R2 = None.
Proof.
  apply (partition_R2_miss [83; 117; 109; 109; 97; 114; 121] 121);
    first [done|not_in_list].
Qed.

Lemma partition_TAG_answer : partition TAG (x1 ++ 58 :: R1) = None.
Proof.
  change TAG with ([84; 97; 103] ++ [58]).
  rewrite (partition_colon_miss _ x1 R1); [|not_in_list|apply x1_colon|].
  - rewrite (partition_R1_miss [84; 97; 103] 103); first [done|not_in_list].
  - by apply (not_suffix_by_last x1 _ 101 103).
Qed.

Lemma partition_TAGS_R2 : partition TAGS R2 = Some (32 :: s ++ [10], tail).
Proof.
  unfold R2, x3. rewrite <- app_assoc.
  apply (partition_colon_hit [84; 97; 103; 115] (32 :: s ++ [10]) tail); not_in_list.
Qed.

Lemma partition_TAGS_answer :
  partition TAGS (x1 ++ 58 :: R1)
  = Some (x1 ++ 58 :: x2 ++ 58 :: 32 :: s ++ [10], tail).
Proof.
  change TAGS with ([84; 97; 103; 115] ++ [58]).
  rewrite (partition_colon_miss _ x1 R1); [|not_in_list|apply x1_colon|].
  - unfold R1. rewrite (partition_colon_miss _ x2 R2); [|not_in_list|apply x2_colon|].
    + change ([84; 97; 103; 115] ++ [58]) with TAGS.
      by rewrite partition_TAGS_R2.
    + by apply (not_suffix_by_last x2 _ 121 115 last_x2).
  - by apply (not_suffix_by_last x1 _ 101 115).
Qed.

Lemma partition_TAGS_tail : partition TAGS tail = None.
Proof. apply (partition_colon_free [84; 97; 103; 115] tail tail_colon). Qed.

Lemma extract_headline_answer : extract_headline (x1 ++ 58 :: R1) = Some h.
Proof.
  unfold extract_headline.
  rewrite (partition_Some_contains _ _ _ partition_HEADLINE_answer).
  rewrite (partition_Some_contains _ _ _ partition_SUMMARY_answer). cbn [andb].
  rewrite (split_on_1 HEADLINE _ _ _ ltac:(done) partition_HEADLINE_answer).
  rewrite partition_HEADLINE_R1. cbn [mbind option_bind].
  rewrite (split_on_0 SUMMARY R1 ltac:(done)), partition_SUMMARY_R1.
  cbn [mbind option_bind]. f_equal.
  change (32 :: h ++ [10]) with ([32] ++ h ++ [10]).
  by rewrite strip_pad.
Qed.

Lemma strip_R2 :
  strip R2 = lstrip (32 :: s ++ [10]) ++ [84; 97; 103; 115] ++ 58 :: rstrip tail.
Proof.
  unfold strip, R2. rewrite (rstrip_app_nonspace x3 58 tail) by done.
  unfold x3. rewrite <- app_assoc.
  change ([84; 97; 103; 115] ++ 58 :: rstrip tail)
    with (84 :: [97; 103; 115] ++ 58 :: rstrip tail).
  by rewrite lstrip_app_nonspace.
Qed.

Lemma lstrip_s_colon : 58 ∉ lstrip (32 :: s ++ [10]).
Proof. apply not_elem_of_lstrip. not_in_list. Qed.

Lemma extract_summary_answer : extract_summary U (x1 ++ 58 :: R1) = Some s.
Proof.
  unfold extract_summary.
  rewrite (partition_Some_contains _ _ _ partition_SUMMARY_answer).
  rewrite (partition_None_clean _ _ partition_TAG_answer).
  rewrite (split_on_1 SUMMARY _ _ _ ltac:(done) partition_SUMMARY_answer).
  rewrite partition_SUMMARY_R2. cbn [mbind option_bind]. rewrite strip_R2.
  pose proof (partition_colon_hit [84; 97; 103; 115] _ (rstrip tail)
                ltac:(not_in_list) lstrip_s_colon) as Hp.
  change ([84; 97; 103; 115] ++ [58]) with TAGS in Hp.
  rewrite (partition_Some_contains _ _ _ Hp).
  rewrite (split_on_0 TAGS _ ltac:(done)), Hp. cbn [mbind option_bind].
  rewrite strip_lstrip.
  change (32 :: s ++ [10]) with ([32] ++ s ++ [10]).
  rewrite strip_pad, s_stripped by done.
  unfold re_sub. rewrite (sub_from_no_match U tags_colon_re None s)
    by (by apply search_colon_free).
  by rewrite (sub_from_no_match U tags_word_re None s).
Qed.

Lemma tags_pieces :
  List.filter nonempty (strip <$> split_on [44] (strip tail)) = tgs.
Proof.
  unfold tail. destruct tgs as [|y r] eqn:Etgs; [done|].
  apply Forall_cons in tgs_ok as [Hy Hr].
  assert (Hstrip : strip (32 :: join [44; 32] (y :: r)) = join [44; 32] (y :: r)).
  { change (32 :: join [44; 32] (y :: r)) with ([32] ++ join [44; 32] (y :: r)).
    rewrite <- (app_nil_r (join [44; 32] (y :: r))) at 1.
    rewrite (strip_pad [32] _ []) by done. unfold strip.
    destruct (join_last [44; 32] (y :: r)) as (t & c & Ht & Hc & Hl); [|done|].
    { apply Forall_cons. split; [apply Hy|].
      eapply Forall_impl; [exact Hr|]. by intros ? [? _]. }
    assert (Hwf : well_formed_tag t).
    { assert (Hall : Forall well_formed_tag (y :: r)) by (by apply Forall_cons).
      rewrite Forall_forall in Hall. apply Hall.
      apply last_Some in Ht as [l' ->]. apply elem_of_app. right.
      apply list_elem_of_here. }
    rewrite rstrip_id.
    - apply lstrip_id. intros d Hd. destruct Hy as (Hne & _ & Hh & _).
      destruct y as [|d' y]; [done|]. apply (Hh d).
      by rewrite (join_head _ (d' :: y) r d' eq_refl) in Hd.
    - intros d Hd. rewrite Hl in Hd. injection Hd as <-.
      destruct Hwf as (_ & _ & _ & Hlast). by apply Hlast. }
  rewrite Hstrip. unfold split_on.
  rewrite (split_on_comma_join _ [] y r); [|apply not_elem_of_nil| |done].
  - cbn [app fmap list_fmap]. rewrite (well_formed_tag_stripped y Hy).
    destruct Hy as (Hne & _). cbn [List.filter].
    replace (nonempty y) with true by (by destruct y). f_equal.
    clear -Hr. induction Hr as [|t r Ht Hr IH]; [done|].
    cbn [fmap list_fmap List.filter]. rewrite (strip_space_tag t Ht).
    destruct Ht as (Hne & _). replace (nonempty t) with true by (by destruct t).
    f_equal. exact IH.
  - apply Forall_cons. split; [by destruct Hy as (_ & ? & _)|].
    eapply Forall_impl; [exact Hr|]. by intros ? (_ & ? & _).
Qed.

Lemma extract_tags_answer : extract_tags (x1 ++ 58 :: R1) = Some tgs.
Proof.
  unfold extract_tags.
  rewrite (partition_Some_contains _ _ _ partition_TAGS_answer).
  rewrite (split_on_1 TAGS _ _ _ ltac:(done) partition_TAGS_answer).
  rewrite partition_TAGS_tail. cbn [fmap option_fmap option_map mbind option_bind].
  by rewrite tags_pieces, take_ge.
Qed.

(** X19. An answer in the format the prompt asks for is parsed back into
    its parts: for a headline, a summary and at most three tags that hold
    no colon, are free of white space at their ends (the tags also
    non-empty and free of commas), with a summary in which the word tag or
    tags does not stand as a whole word, the tool's parse of
    [format_answer] returns exactly that headline, summary and tags. *)
Theorem parse_response_of_formatted_answer :
  parse_response U (format_answer h s tgs)
  = Some {| headline := h; summary := s; tags := tgs |}.
Proof.
  rewrite format_answer_cut. unfold parse_response.
  by rewrite extract_headline_answer, extract_summary_answer, extract_tags_answer.
Qed.

End FormatThenParse.

Lemma parse_formatted_witness :
  parse_response ascii_tables
    (format_answer (lit "EV Sales Soar") (lit "Sales rose sharply.")
                   [lit "EV"; lit "Sales"; lit "Growth"])
  = Some {| headline := lit "EV Sales Soar";
            summary := lit "Sales rose sharply.";
            tags := [lit "EV"; lit "Sales"; lit "Growth"] |}.
Proof.
  apply (parse_response_of_formatted_answer ascii_tables).
  - vm_compute. not_in_list.
  - vm_compute. not_in_list.
  - repeat constructor; vm_compute; not_in_list.
  - reflexivity.
  - reflexivity.
  - repeat constructor; try (vm_compute; not_in_list); try done;
      by intros c [= <-].
  - simpl. lia.
  - reflexivity.
Defined.

(** A summary in which the word tags stands as a whole word is cut before
    it by the second clean-up pass, although the answer is well formed. *)
Example genuine_tags_word_cuts_summary :
  parse_response ascii_tables
    (format_answer (lit "H") (lit "Price tags rose") [lit "a"])
  = Some {| headline := lit "H"; summary := lit "Price"; tags := [lit "a"] |}.
Proof. reflexivity. Qed.

(** ** No marker inside the headline or a tag *)

Lemma partition_shorter sep (s a b : str) :
  sep <> [] -> partition sep s = Some (a, b) -> (length b < length s)%nat.
Proof.
  intros Hne Hp. apply partition_app in Hp as ->.
  rewrite !length_app. destruct sep; [done|]. simpl. lia.
Qed.

(** Every piece of [s.split(sep)] is free of [sep], and is a part of [s]. *)
Lemma split_on_fuel_pieces sep n (s : str) :
  sep <> [] -> (length s <= n)%nat ->
  Forall (fun p => contains sep p = false /\ exists a b, s = a ++ p ++ b)
         (split_on_fuel n sep s).
Proof.
  intros Hne. revert s. induction n as [|n IH]; intros s Hlen.
  - destruct s; [|simpl in Hlen; lia]. repeat constructor.
    + by destruct sep.
    + by exists [], [].
  - cbn [split_on_fuel]. destruct (partition sep s) as [[a b]|] eqn:E.
    + constructor.
      * split; [by apply (partition_first_clean sep s a b)|].
        exists [], (sep ++ b). by apply partition_app in E.
      * pose proof (partition_shorter _ _ _ _ Hne E) as Hb.
        eapply Forall_impl; [apply IH; lia|].
        intros p (Hp & a' & b' & Hs). split; [done|].
        exists (a ++ sep ++ a'), b'. apply partition_app in E as ->.
        rewrite Hs. by rewrite <- !app_assoc.
    + repeat constructor; [by apply partition_None_clean|].
      exists [], []. by rewrite app_nil_r.
Qed.

Lemma split_on_piece sep (s p : str) i :
  sep <> [] -> split_on sep s !! i = Some p ->
  contains sep p = false /\ exists a b, s = a ++ p ++ b.
Proof.
  intros Hne Hi. pose proof (split_on_fuel_pieces sep (length s) s Hne (le_n _)) as H.
  rewrite Forall_forall in H. apply H. by eapply list_elem_of_lookup_2.
Qed.

Lemma contains_part sep (a p b : str) :
  contains sep (a ++ p ++ b) = false -> contains sep p = false.
Proof.
  intros H. destruct (contains sep p) eqn:E; [|done].
  apply (contains_app_l sep p b) in E. apply (contains_app_r sep a) in E.
  congruence.
Qed.

Lemma extract_headline_clean result hd :
  extract_headline result = Some hd ->
  contains HEADLINE hd = false /\ contains SUMMARY hd = false.
Proof.
  unfold extract_headline.
  destruct (contains HEADLINE result && contains SUMMARY result);
    [|by intros [= <-]].
  destruct (split_on HEADLINE result !! 1%nat) as [a|] eqn:Ea; [|done].
  cbn [mbind option_bind].
  destruct (split_on SUMMARY a !! 0%nat) as [b|] eqn:Eb; [|done].
  cbn [mbind option_bind]. intros H. apply (inj Some) in H. subst hd.
  destruct (split_on_piece HEADLINE result a 1 ltac:(done) Ea) as [Ha _].
  destruct (split_on_piece SUMMARY a b 0 ltac:(done) Eb) as (Hb & a' & b' & Hab).
  split; apply contains_strip; [|done].
  apply (contains_part HEADLINE a' b b'). by rewrite <- Hab.
Qed.

Lemma extract_tags_clean result tg :
  extract_tags result = Some tg -> Forall (fun t => contains TAGS t = false) tg.
Proof.
  unfold extract_tags. destruct (contains TAGS result).
  - destruct (split_on TAGS result !! 1%nat) as [after|] eqn:Ea; [|done].
    cbn [fmap option_fmap option_map mbind option_bind].
    intros H. apply (inj Some) in H. subst tg.
    destruct (split_on_piece TAGS result after 1 ltac:(done) Ea) as [Ha _].
    apply Forall_take, Forall_forall. intros t Hin.
    apply list_elem_of_In, filter_In in Hin as [Hin _].
    apply list_elem_of_In, list_elem_of_fmap in Hin as (piece & -> & Hpiece).
    apply list_elem_of_lookup_1 in Hpiece as [i Hi].
    destruct (split_on_piece [44] (strip after) piece i ltac:(done) Hi)
      as (_ & a' & b' & Hab).
    apply contains_strip, (contains_part TAGS a' piece b').
    rewrite <- Hab. by apply contains_strip.
  - intros [= <-]. by repeat constructor.
Qed.

(** X20. The headline the tool returns holds neither the marker Headline:
    nor the marker Summary:, and no tag holds the marker Tags:, whatever
    the model answered: each field ends where the next marker starts. *)
Theorem summarize_fields_hold_no_marker
    (U : unicode) (L : backend) (title description content : pyval) (w : world L) :
  let r := (summarize_article_tool U L title description content w).1 in
  contains HEADLINE (headline r) = false
  /\ contains SUMMARY (headline r) = false
  /\ Forall (fun t => contains TAGS t = false) (tags r).
Proof.
  cbv zeta.
  destruct (chain_run L (truncated_text U title description content) w)
    as [[result|] w'] eqn:Hrun.
  - destruct (summarize_article_tool_Returned _ _ _ _ _ _ _ _ Hrun)
      as (h & s & tg & Hh & _ & Htg & ->). cbn [headline tags].
    destruct (extract_headline_clean _ _ Hh) as [H1 H2].
    split; [done|]. split; [done|]. by apply (extract_tags_clean result).
  - rewrite (summarize_article_tool_Raised _ _ _ _ _ _ _ Hrun).
    split; [done|]. split; [done|]. by repeat constructor.
Qed.

(** ** The headline and the summary, by the answer *)

Lemma partition_up_to sep (s : str) :
  match partition sep s with Some (a, _) => a | None => s end = up_to sep s.
Proof.
  induction s as [|c s IH]; cbn [partition up_to].
  - by destruct (startswith sep []).
  - destruct (startswith sep (c :: s)); [done|].
    destruct (partition sep s) as [[a b]|]; by rewrite <- IH.
Qed.

Lemma partition_after sep (s a b : str) :
  partition sep s = Some (a, b) -> after sep s = b.
Proof.
  revert a. induction s as [|c s IH]; intros a; cbn [partition after].
  - destruct (startswith sep []); [|done]. intros H. by injection H.
  - destruct (startswith sep (c :: s)); [intros H; by injection H|].
    destruct (partition sep s) as [[a' b']|]; [|done].
    intros H. injection H as _ <-. by eapply IH.
Qed.

Lemma up_to_absent sep (s : str) : contains sep s = false -> up_to sep s = s.
Proof.
  induction s as [|c s IH]; cbn [contains up_to].
  - by destruct (startswith sep []).
  - destruct (startswith sep (c :: s)); [done|]. cbn. intros H. by rewrite IH.
Qed.

Lemma split_on_first sep (s : str) :
  sep <> [] -> split_on sep s !! 0%nat = Some (up_to sep s).
Proof. intros Hne. by rewrite split_on_0, partition_up_to. Qed.

Lemma split_on_second sep (s : str) :
  sep <> [] -> contains sep s = true ->
  split_on sep s !! 1%nat = Some (up_to sep (after sep s)).
Proof.
  intros Hne [[a b] Hp]%partition_contains.
  by rewrite (split_on_1 _ _ _ _ Hne Hp), partition_up_to, (partition_after _ _ _ _ Hp).
Qed.

Lemma extract_headline_value result :
  extract_headline result
  = Some (if contains HEADLINE result && contains SUMMARY result
          then strip (headline_text result) else headline_unavailable).
Proof.
  unfold extract_headline, headline_text.
  destruct (contains HEADLINE result) eqn:Hh; [|done].
  destruct (contains SUMMARY result); [|done]. cbn [andb].
  rewrite (split_on_second HEADLINE result) by done. cbn [mbind option_bind].
  by rewrite split_on_first.
Qed.

Lemma extract_summary_value U result :
  contains SUMMARY result = true ->
  extract_summary U result
  = Some (re_sub U tags_word_re (re_sub U tags_colon_re (summary_text result))).
Proof.
  intros Hs. unfold extract_summary, summary_text. rewrite Hs.
  rewrite (split_on_second SUMMARY result) by done.
  set (a := up_to SUMMARY (after SUMMARY result)).
  assert (Ha : forall sep, contains sep result = false -> contains sep a = false).
  { intros sep Hsep.
    destruct (split_on_piece SUMMARY result a 1 ltac:(done)
                (split_on_second SUMMARY result ltac:(done) Hs)) as (_ & x & y & Hxy).
    apply (contains_part sep x a y). by rewrite <- Hxy. }
  assert (Hb : (if contains TAG result
                then a0 ← Some a; b ← split_on TAG a0 !! 0%nat; Some (strip b)
                else a0 ← Some a; Some (strip a0))
               = Some (strip (up_to TAG a))).
  { destruct (contains TAG result) eqn:Ht; cbn [mbind option_bind].
    - by rewrite split_on_first.
    - by rewrite (up_to_absent TAG a (Ha _ Ht)). }
  rewrite Hb. cbn [mbind option_bind].
  set (b := strip (up_to TAG a)).
  destruct (contains TAGS b) eqn:Ht; cbn [mbind option_bind].
  - by rewrite split_on_first.
  - rewrite (up_to_absent TAGS b Ht). unfold b. by rewrite strip_strip.
Qed.

Lemma lstrip_nil_blank (s : str) : lstrip s = [] -> forallb isspace s = true.
Proof.
  induction s as [|c s IH]; [done|]. cbn [lstrip forallb].
  destruct (isspace c); [|done]. apply IH.
Qed.

Lemma strip_nil_blank (s : str) : strip s = [] -> forallb isspace s = true.
Proof.
  unfold strip. intros H%lstrip_nil_blank.
  destruct (rstrip s) as [|c t] eqn:E.
  - unfold rstrip in E. apply (f_equal (@rev _)) in E. rewrite rev_involutive in E.
    apply lstrip_nil_blank in E. rewrite forallb_forall in E.
    apply forallb_forall. intros x Hx. apply E. by apply in_rev in Hx.
  - assert (Hl : is_Some (last (c :: t))).
    { rewrite last_is_Some. done. }
    destruct Hl as [x Hx]. pose proof Hx as Hx'.
    rewrite <- E in Hx. apply rstrip_last_not_space in Hx.
    apply last_Some in Hx' as [l' Hl']. rewrite Hl', forallb_app in H.
    apply andb_prop in H as [_ H]. cbn in H. rewrite Hx in H. done.
Qed.

(** The clean-up patterns start a match at a run of white space followed by
    the three letters. *)
Lemma star_inv_class p k prev (s x : str) :
  star p k prev s = Some x ->
  exists prev' a s', s = a ++ s' /\ forallb p a = true /\ k prev' s' = Some x.
Proof.
  revert prev. induction s as [|c s IH]; intros prev; cbn [star].
  - intros H. by exists prev, [], [].
  - destruct (p c) eqn:Hc.
    + destruct (star p k (Some c) s) as [y|] eqn:E.
      * intros H. injection H as <-.
        destruct (IH _ E) as (prev' & a & s' & -> & Ha & Hk).
        exists prev', (c :: a), s'. cbn [forallb]. by rewrite Hc, Ha.
      * intros H. by exists prev, [], (c :: s).
    + intros H. by exists prev, [], (c :: s).
Qed.

Lemma tag_letters_inv U R prev (s : str) k (x : str) :
  rmatch U (Cat (Chr ci_t) (Cat (Chr ci_a) (Cat (Chr ci_g) R))) prev s k = Some x ->
  begins_with_tag s = true.
Proof.
  cbn [rmatch]. unfold ci_t, ci_a, ci_g, begins_with_tag.
  destruct s as [|c1 [|c2 [|c3 s]]]; try done.
  - by destruct ((c1 =? 116) || (c1 =? 84)).
  - destruct ((c1 =? 116) || (c1 =? 84)); [|done].
    by destruct ((c2 =? 97) || (c2 =? 65)).
  - destruct ((c1 =? 116) || (c1 =? 84)); [|done].
    destruct ((c2 =? 97) || (c2 =? 65)); [|done].
    by destruct ((c3 =? 103) || (c3 =? 71)).
Qed.

Lemma rmatch_leading_star U p R prev (s : str) k (x : str) :
  rmatch U (Cat (Star p) R) prev s k = Some x ->
  exists prev' a s',
    s = a ++ s' /\ forallb p a = true /\ rmatch U R prev' s' k = Some x.
Proof. cbn [rmatch]. apply star_inv_class. Qed.

Lemma rmatch_bound_inv U R prev (s : str) k (x : str) :
  rmatch U (Cat Bound R) prev s k = Some x -> rmatch U R prev s k = Some x.
Proof. cbn [rmatch]. by destruct (at_boundary U prev s). Qed.

Lemma match_here_colon_begin U prev (s x : str) :
  match_here U tags_colon_re prev s = Some x ->
  exists ws s', s = ws ++ s' /\ forallb isspace ws = true /\ begins_with_tag s' = true.
Proof.
  unfold match_here, tags_colon_re.
  intros (p' & ws & s' & -> & Hws & H)%rmatch_leading_star.
  exists ws, s'. split; [done|]. split; [done|].
  by apply tag_letters_inv in H.
Qed.

Lemma match_here_word_begin U prev (s x : str) :
  match_here U tags_word_re prev s = Some x ->
  exists ws s', s = ws ++ s' /\ forallb isspace ws = true /\ begins_with_tag s' = true.
Proof.
  unfold match_here, tags_word_re.
  intros (p' & ws & s' & -> & Hws & H)%rmatch_leading_star.
  exists ws, s'. split; [done|]. split; [done|].
  apply rmatch_bound_inv in H. by apply tag_letters_inv in H.
Qed.

Lemma mentions_tag_begins (s : str) : begins_with_tag s = true -> mentions_tag s = true.
Proof. destruct s as [|c s]; [done|]. cbn [mentions_tag]. by intros ->. Qed.

Lemma mentions_tag_app_r (a b : str) :
  mentions_tag b = true -> mentions_tag (a ++ b) = true.
Proof.
  intros Hb. induction a as [|c a IH]; [done|].
  cbn [app mentions_tag]. rewrite IH. apply orb_true_r.
Qed.

Lemma begins_with_tag_app (a b : str) :
  begins_with_tag a = true -> begins_with_tag (a ++ b) = true.
Proof. by destruct a as [|c1 [|c2 [|c3 a]]]. Qed.

Section CleanUp.
Variable U : unicode.
Variable r : regex.
Hypothesis r_begin : forall prev (s x : str),
  match_here U r prev s = Some x ->
  exists ws s', s = ws ++ s' /\ forallb isspace ws = true /\ begins_with_tag s' = true.

Lemma search_from_no_tag prev (s : str) :
  mentions_tag s = false -> search_from U r prev s = false.
Proof.
  revert prev. induction s as [|c s IH]; intros prev Hs; cbn [search_from].
  - destruct (match_here U r prev []) as [x|] eqn:E; [|done].
    apply r_begin in E as (ws & s' & Heq & _ & Hb).
    destruct ws, s'; done.
  - destruct (match_here U r prev (c :: s)) as [x|] eqn:E.
    + apply r_begin in E as (ws & s' & Heq & _ & Hb).
      apply mentions_tag_begins, (mentions_tag_app_r ws) in Hb.
      rewrite <- Heq in Hb. congruence.
    + cbn [mentions_tag] in Hs. apply orb_false_elim in Hs as [_ Hs].
      by apply IH.
Qed.

Lemma re_sub_no_tag (s : str) : mentions_tag s = false -> re_sub U r s = s.
Proof. intros Hs. apply sub_from_no_match. by apply search_from_no_tag. Qed.

Lemma match_here_other_start prev c (s : str) :
  isspace c = false -> begins_with_tag (c :: s) = false ->
  match_here U r prev (c :: s) = None.
Proof.
  intros Hc Hb. destruct (match_here U r prev (c :: s)) as [x|] eqn:E; [|done].
  apply r_begin in E as (ws & s' & Heq & Hws & Hb').
  destruct ws as [|d ws].
  - cbn in Heq. subst s'. congruence.
  - cbn in Heq. injection Heq as <- _. cbn in Hws. by rewrite Hc in Hws.
Qed.

Lemma re_sub_keeps_start c (s : str) :
  isspace c = false -> begins_with_tag (c :: s) = false ->
  exists t, re_sub U r (c :: s) = c :: t.
Proof.
  intros Hc Hb. unfold re_sub. cbn [sub_from].
  rewrite (match_here_other_start None c s Hc Hb). by eexists.
Qed.
End CleanUp.

(** A pattern that starts with [\s*] and ends with [$] cuts the subject
    before a run of white space, never inside or after one: what it keeps
    ends as the subject does, with no white space. *)
Section LeadingSpace.
Variable U : unicode.
Variables r R : regex.
Hypothesis r_shape : r = Cat (Star isspace) R.
Hypothesis r_eol : ends_at_eol r = true.
Hypothesis r_newline : forall prev, sub_from U r 0 prev [10] = [10].

Lemma match_here_leading_space prev c (s : str) :
  isspace c = true ->
  is_Some (match_here U r (Some c) s) -> is_Some (match_here U r prev (c :: s)).
Proof.
  unfold match_here. rewrite r_shape. cbn [rmatch star].
  intros -> [x ->]. by eexists.
Qed.

Lemma sub_from_nil prev (s : str) :
  sub_from U r 0 prev s = [] -> s = [] \/ is_Some (match_here U r prev s).
Proof.
  destruct s as [|c s]; [by left|]. cbn [sub_from].
  destruct (match_here U r prev (c :: s)); [right; by eexists|done].
Qed.

Lemma sub_from_last_not_space (s : str) prev y :
  (forall x, last s = Some x -> isspace x = false) ->
  last (sub_from U r 0 prev s) = Some y -> isspace y = false.
Proof.
  revert prev. induction s as [|c s IH]; intros prev Hlast; [done|].
  cbn [sub_from]. destruct (match_here U r prev (c :: s)) as [rest|] eqn:E.
  - destruct (match_here_eol _ _ _ _ _ r_eol E) as (a & Ha & He).
    apply at_eol_inv in He as [-> | ->].
    + rewrite app_nil_r in Ha. subst a. cbn [length].
      replace (S (length s) - 0)%nat with (S (length s)) by lia.
      pose proof (sub_from_skip U r (Some c) s []) as Hskip.
      rewrite app_nil_r in Hskip. by rewrite Hskip.
    + specialize (Hlast 10). rewrite Ha, last_snoc in Hlast.
      by specialize (Hlast eq_refl).
  - destruct (sub_from U r 0 (Some c) s) as [|d out] eqn:Eout.
    + cbn. intros H. injection H as <-.
      destruct (isspace c) eqn:Hc; [|done]. exfalso.
      apply sub_from_nil in Eout as [-> | Hm].
      * specialize (Hlast c eq_refl). congruence.
      * apply (match_here_leading_space prev) in Hm; [|done].
        rewrite E in Hm. by destruct Hm.
    + rewrite last_cons_cons. rewrite <- Eout. apply IH.
      intros x Hx. apply Hlast. destruct s; [done|]. by rewrite last_cons_cons.
Qed.

Lemma re_sub_prefix (s : str) :
  (forall x, last s = Some x -> isspace x = false) ->
  exists cut, s = re_sub U r s ++ cut.
Proof.
  intros Hlast.
  destruct (sub_from_eol U r r_eol r_newline s None)
    as (pre & mid & rest & Hs & Hsub & Hrest).
  unfold re_sub. rewrite Hsub. destruct Hrest as [-> | ->].
  - rewrite app_nil_r in *. by exists mid.
  - specialize (Hlast 10). rewrite Hs, !app_assoc, last_snoc in Hlast.
    by specialize (Hlast eq_refl).
Qed.
End LeadingSpace.

(** What the two clean-up passes leave of a stripped text. *)
Lemma clean_up_of_stripped U (k : str) :
  (forall x, head k = Some x -> isspace x = false) ->
  (forall x, last k = Some x -> isspace x = false) ->
  let s := re_sub U tags_word_re (re_sub U tags_colon_re k) in
  (exists cut, k = s ++ cut)
  /\ (mentions_tag k = false -> s = k)
  /\ (k <> [] -> begins_with_tag k = false -> s <> []).
Proof.
  intros Hhead Hlast. cbv zeta.
  destruct (re_sub_prefix U tags_colon_re eq_refl (tags_colon_re_newline U) k Hlast)
    as [cut1 H1].
  assert (Hlast1 : forall x, last (re_sub U tags_colon_re k) = Some x -> isspace x = false).
  { intros x. by apply (sub_from_last_not_space U tags_colon_re _ eq_refl eq_refl). }
  destruct (re_sub_prefix U tags_word_re eq_refl (tags_word_re_newline U) _ Hlast1)
    as [cut2 H2].
  split; [|split].
  - exists (cut2 ++ cut1). by rewrite app_assoc, <- H2.
  - intros Hk. rewrite (re_sub_no_tag U _ (match_here_colon_begin U) k Hk).
    by apply (re_sub_no_tag U _ (match_here_word_begin U)).
  - intros Hne Hb. destruct k as [|c k]; [done|].
    assert (Hc : isspace c = false) by (by apply Hhead).
    destruct (re_sub_keeps_start U _ (match_here_colon_begin U) c k Hc Hb) as [t Ht].
    rewrite Ht in *.
    assert (Hb1 : begins_with_tag (c :: t) = false).
    { destruct (begins_with_tag (c :: t)) eqn:E; [|done].
      apply (begins_with_tag_app _ cut1) in E. rewrite <- H1 in E. congruence. }
    destruct (re_sub_keeps_start U _ (match_here_word_begin U) c t Hc Hb1) as [t' Ht'].
    by rewrite Ht'.
Qed.

(** C5, as amended. For every input and every outcome of the model call the
    tags are at most 3.  When the call raises, the headline and the summary
    are the fallback literals.  When it returns an answer, the headline is
    Headline unavailable if the answer lacks Headline: or Summary:, and
    else the stripped text between the first Headline: and the next
    Headline: or Summary: (or the end of the answer), so that it is empty
    exactly when both markers are there and that text is blank.  The
    summary is Summary unavailable if the answer lacks Summary:; else it is
    a prefix of the summary text (what follows the first Summary: up to the
    next Summary:, Tag: or Tags:, or the end of the answer, stripped): all
    of it when it holds no tag in either case, and not empty when that text
    is not empty and does not begin with tag in either case. *)
Theorem summarize_fields_by_answer
    (U : unicode) (L : backend) (title description content : pyval) (w : world L) :
  let r := (summarize_article_tool U L title description content w).1 in
  (length (tags r) <= 3)%nat
  /\ match (chain_run L (article_text U (or_empty title) (or_empty description)
                           (or_empty content)) w).1 with
     | Raised => headline r = headline_unavailable /\ summary r = summary_filtered
     | Returned result =>
         headline r
         = (if contains HEADLINE result && contains SUMMARY result
            then strip (headline_text result) else headline_unavailable)
         /\ (headline r = []
             <-> contains HEADLINE result && contains SUMMARY result = true
                 /\ forallb isspace (headline_text result) = true)
         /\ (contains SUMMARY result = false -> summary r = summary_unavailable)
         /\ (contains SUMMARY result = true ->
             (exists cut, summary_text result = summary r ++ cut)
             /\ (mentions_tag (summary_text result) = false ->
                 summary r = summary_text result)
             /\ (summary_text result <> [] ->
                 begins_with_tag (summary_text result) = false ->
                 summary r <> []))
     end.
Proof.
  cbv zeta. rewrite <- truncated_text_article_text.
  destruct (chain_run L (truncated_text U title description content) w)
    as [[result|] w'] eqn:Hrun; cbn [fst].
  - destruct (summarize_article_tool_Returned _ _ _ _ _ _ _ _ Hrun)
      as (h & s & tg & Hh & Hs & Htg & ->). cbn [headline summary tags].
    split; [by eapply extract_tags_length|].
    rewrite extract_headline_value in Hh. apply (inj Some) in Hh.
    split; [done|]. split; [|split].
    + rewrite <- Hh.
      destruct (contains HEADLINE result && contains SUMMARY result).
      * split.
        -- intros Hnil. split; [done|]. by apply strip_nil_blank.
        -- intros [_ Hblank]. by apply strip_blank.
      * split; [done|]. by intros [? _].
    + intros Habs. rewrite (extract_summary_absent U _ Habs) in Hs.
      by apply (inj Some) in Hs.
    + intros Hpres. rewrite (extract_summary_value U _ Hpres) in Hs.
      apply (inj Some) in Hs. subst s.
      apply clean_up_of_stripped.
      * intros x. apply strip_head.
      * intros x. apply strip_last_not_space.
  - rewrite (summarize_article_tool_Raised _ _ _ _ _ _ _ Hrun).
    split; [cbn; lia|]. by split.
Qed.

Lemma summarize_fields_witness :
  let r := (summarize_article_tool ascii_tables (scripted (Returned well_formed_answer))
              (PStr []) (PStr []) (PStr []) tt).1 in
  contains SUMMARY well_formed_answer = true
  /\ mentions_tag (summary_text well_formed_answer) = false
  /\ summary_text well_formed_answer <> []
  /\ begins_with_tag (summary_text well_formed_answer) = false
  /\ summary r = lit "Sales rose sharply."
  /\ summary r <> []
  /\ contains SUMMARY (lit "hello") = false
  /\ summary (summarize_article_tool ascii_tables (scripted (Returned (lit "hello")))
                (PStr []) (PStr []) (PStr []) tt).1 = summary_unavailable.
Proof.
  cbv zeta.
  pose proof (summarize_fields_by_answer ascii_tables
                (scripted (Returned (lit "hello"))) (PStr []) (PStr []) (PStr []) tt)
    as [_ H0].
  cbn [scripted chain_run fst] in H0. destruct H0 as (_ & _ & H0 & _).
  pose proof (summarize_fields_by_answer ascii_tables
                (scripted (Returned well_formed_answer)) (PStr []) (PStr []) (PStr []) tt)
    as [_ H].
  cbn [scripted chain_run fst] in H. destruct H as (_ & _ & _ & H).
  assert (Hs : contains SUMMARY well_formed_answer = true) by reflexivity.
  assert (Hm : mentions_tag (summary_text well_formed_answer) = false) by reflexivity.
  assert (Hne : summary_text well_formed_answer <> []) by (by vm_compute).
  assert (Hb : begins_with_tag (summary_text well_formed_answer) = false) by reflexivity.
  destruct (H Hs) as (_ & Hall & Hsome).
  split; [exact Hs|]. split; [exact Hm|]. split; [exact Hne|]. split; [exact Hb|].
  split; [rewrite (Hall Hm); reflexivity|].
  split; [exact (Hsome Hne Hb)|].
  split; [reflexivity|exact (H0 eq_refl)].
Defined.

(** A summary that begins with the word Tag is deleted whole by the second
    clean-up pass, though its text is neither empty nor a tags line. *)
Example summary_about_tags_is_deleted :
  summary_text price_tags_answer = lit "Tag prices rose sharply."
  /\ summary (summarize_article_tool ascii_tables (scripted (Returned price_tags_answer))
                (PStr []) (PStr []) (PStr []) tt).1 = [].
Proof. split; reflexivity. Qed.
